(** * FlipBird: the flight, obstacle and session model of [flappy_bird.py]

    A shallow embedding of the game's classes ([Bird], [Pipe], [Ground]) and
    of one iteration of the loop of [main].  Python integers are [Z];
    Python floats are exact rationals [Q] (every float the game builds is
    a multiple of 0.5 of small magnitude, on which binary floating point is
    exact), compared with [==].  Methods that only assign attributes are
    state transformers on the object's record; the query [Pipe.collide] is
    written in a small state monad over the two objects it is handed, so
    that what it reads and what it writes is explicit.  The graphics
    library is a collaborator: its surfaces, masks and the mask overlap test
    are the fields of the class [Pygame]. *)

From Stdlib Require Import ZArith QArith Qround Qminmax Lqa List Lia Bool.
Import ListNotations.

Local Open Scope Z_scope.

(** ** Numbers *)

(** Strict comparison of two rationals, [a < b] in Python. *)
Definition Qltb (a b : Q) : bool := negb (Qle_bool b a).

(** Python's [round(q)] with one argument: the nearest integer, a tie going
    to the even neighbour. *)
Definition py_round (q : Q) : Z :=
  let f := Qfloor q in
  let r := (q - inject_Z f)%Q in
  if Qltb r 0.5 then f
  else if Qltb 0.5 r then f + 1
  else if Z.even f then f else f + 1.

(** [random.randrange(start, stop)]: [start] plus a draw below the width
    [stop - start]; [r] is the raw output of the generator for this call. *)
Definition randrange (start stop : Z) (r : Z) : Z :=
  start + r mod (stop - start).

(** ** A state monad for methods that read (or write) objects *)

Definition State (S A : Type) : Type := S -> A * S.

Definition ret {S A} (a : A) : State S A := fun s => (a, s).

Definition bind {S A B} (m : State S A) (k : A -> State S B) : State S B :=
  fun s => let (a, s') := m s in k a s'.

Definition gets {S A} (f : S -> A) : State S A := fun s => (f s, s).

(** Run an action of the second object of a pair of objects. *)
Definition on_snd {S1 S2 A} (m : State S2 A) : State (S1 * S2) A :=
  fun s => let (a, s2) := m (snd s) in (a, (fst s, s2)).

Notation "x <- m ;; k" := (bind m (fun x => k))
  (at level 61, m at next level, right associativity).

(** ** The graphics collaborator *)

Class Pygame : Type := {
  Surface : Type;
  Mask : Type;
  get_width : Surface -> Z;
  get_height : Surface -> Z;
  (** [pygame.transform.flip(surface, flip_x, flip_y)] *)
  flip : Surface -> bool -> bool -> Surface;
  (** [pygame.mask.from_surface(surface)] *)
  from_surface : Surface -> Mask;
  (** [mask.overlap(other, offset)]: a point of intersection, or [None] *)
  overlap : Mask -> Mask -> Z * Z -> option (Z * Z);
  PIPE_IMAGE : Surface;
  GROUND_IMAGE : Surface;
  bird1 : Surface;
  bird2 : Surface;
  bird3 : Surface
}.

Definition SCREEN_WIDTH : Z := 500.
Definition SCREEN_HEIGHT : Z := 800.

(** [BIRD_IMAGES[k]] for the three indices the program uses. *)
Definition BIRD_IMAGES `{Pygame} (k : nat) : Surface :=
  match k with
  | O => bird1
  | S O => bird2
  | _ => bird3
  end.

(** Truth value of what [overlap] returns: [None] is false, a point (a
    non-empty tuple) is true. *)
Definition truthy {A} (o : option A) : bool :=
  match o with Some _ => true | None => false end.

(** ** class Bird *)

Module Bird.

Definition MAX_ROTATION : Z := 25.
Definition ROTATION_SPEED : Z := 20.
Definition ANIMATION_TIME : Z := 5.

(** [image] is the index in [IMGS] of the surface the attribute holds. *)
Record t : Type := mk {
  x : Z;
  y : Q;
  angle : Z;
  speed : Q;
  height : Q;
  time : Z;
  image_count : Z;
  image : nat
}.

Definition IMGS `{Pygame} : nat -> Surface := BIRD_IMAGES.

(** [Bird(x, y)] *)
Definition init (x0 : Z) (y0 : Q) : t :=
  {| x := x0; y := y0; angle := 0; speed := 0; height := y0;
     time := 0; image_count := 0; image := 0 |}.

Definition jump (self : t) : t :=
  {| x := x self; y := y self; angle := angle self;
     speed := -10.5;
     time := 0;
     height := y self;
     image_count := image_count self; image := image self |}.

(** [1.5 * (self.time**2) + self.speed * self.time] *)
Definition raw_displacement (time : Z) (speed : Q) : Q :=
  (1.5 * inject_Z (time ^ 2) + speed * inject_Z time)%Q.

(** The [if displacement > 16 ... elif displacement < 0 ...] that follows *)
Definition restrict (displacement : Q) : Q :=
  if Qltb 16 displacement then 16%Q
  else if Qltb displacement 0 then (displacement - 2)%Q
  else displacement.

Definition move (self : t) : t :=
  let time' := time self + 1 in
  let displacement := restrict (raw_displacement time' (speed self)) in
  let y' := (y self + displacement)%Q in
  let angle' :=
    if Qltb displacement 0 || Qltb y' (height self + 50)
    then Z.max (angle self) MAX_ROTATION
    else if angle self >? -90 then angle self - ROTATION_SPEED
    else angle self in
  {| x := x self; y := y'; angle := angle'; speed := speed self;
     height := height self; time := time';
     image_count := image_count self; image := image self |}.

(** The part of [draw] that assigns attributes: the choice of the frame.
    The blit that follows writes to the screen only. *)
Definition draw (self : t) : t :=
  let count := image_count self + 1 in
  let '(img, count) :=
    if count <? ANIMATION_TIME then (0%nat, count)
    else if count <? ANIMATION_TIME * 2 then (1%nat, count)
    else if count <? ANIMATION_TIME * 3 then (2%nat, count)
    else if count <? ANIMATION_TIME * 4 then (1%nat, count)
    else if count >=? ANIMATION_TIME * 4 + 1 then (0%nat, 0)
    else (image self, count) in
  let '(img, count) :=
    if angle self <=? -80 then (1%nat, ANIMATION_TIME * 2)
    else (img, count) in
  {| x := x self; y := y self; angle := angle self; speed := speed self;
     height := height self; time := time self;
     image_count := count; image := img |}.

Definition get_mask `{Pygame} : State t Mask :=
  gets (fun self => from_surface (IMGS (image self))).

End Bird.

(** ** class Pipe *)

Module Pipe.

Definition DISTANCE : Z := 200.
Definition SPEED : Z := 5.

(** [PIPE_TOP] and [PIPE_BOTTOM] are the same two surfaces in every
    pipe, so they are constants here and not fields. *)
Record t : Type := mk {
  x : Z;
  height : Z;
  top_pos : Z;
  bottom_pos : Z;
  passed : bool
}.

Definition PIPE_TOP `{Pygame} : Surface := flip PIPE_IMAGE false true.
Definition PIPE_BOTTOM `{Pygame} : Surface := PIPE_IMAGE.

(** [r] is the generator's raw output for the one draw of the call. *)
Definition set_height `{Pygame} (r : Z) (self : t) : t :=
  let height' := randrange 50 475 r in
  {| x := x self;
     height := height';
     top_pos := height' - get_height PIPE_TOP;
     bottom_pos := height' + DISTANCE;
     passed := passed self |}.

(** [Pipe(x)] *)
Definition init `{Pygame} (x0 : Z) (r : Z) : t :=
  set_height r
    {| x := x0; height := 0; top_pos := 0; bottom_pos := 0;
       passed := false |}.

Definition move (self : t) : t :=
  {| x := x self - SPEED; height := height self; top_pos := top_pos self;
     bottom_pos := bottom_pos self; passed := passed self |}.

(** [main] assigns [pipe.passed = True]. *)
Definition set_passed (self : t) : t :=
  {| x := x self; height := height self; top_pos := top_pos self;
     bottom_pos := bottom_pos self; passed := true |}.

(** [self.collide(bird)], on the pair of the two objects. *)
Definition collide `{Pygame} : State (t * Bird.t) bool :=
  bird_mask <- on_snd Bird.get_mask ;;
  top_mask <- ret (from_surface PIPE_TOP) ;;
  bottom_mask <- ret (from_surface PIPE_BOTTOM) ;;
  top_offset <- gets (fun '(self, bird) =>
    (x self - Bird.x bird, top_pos self - py_round (Bird.y bird))) ;;
  bottom_offset <- gets (fun '(self, bird) =>
    (x self - Bird.x bird, bottom_pos self - py_round (Bird.y bird))) ;;
  top_point <- ret (overlap bird_mask top_mask top_offset) ;;
  bottom_point <- ret (overlap bird_mask bottom_mask bottom_offset) ;;
  if truthy top_point || truthy bottom_point then ret true else ret false.

End Pipe.

(** ** class Ground *)

Module Ground.

Definition SPEED : Z := 5.
Definition WIDTH `{Pygame} : Z := get_width GROUND_IMAGE.

Record t : Type := mk { y : Z; x1 : Z; x2 : Z }.

(** [Ground(y)] *)
Definition init `{Pygame} (y0 : Z) : t :=
  {| y := y0; x1 := 0; x2 := WIDTH |}.

Definition move `{Pygame} (self : t) : t :=
  let x1' := x1 self - SPEED in
  let x2' := x2 self - SPEED in
  let x1'' := if x1' + WIDTH <? 0 then x2' + WIDTH else x1' in
  let x2'' := if x2' + WIDTH <? 0 then x1'' + WIDTH else x2' in
  {| y := y self; x1 := x1''; x2 := x2'' |}.

End Ground.

(** ** The loop of [main] *)

Module Game.

Inductive event : Type :=
| QUIT
| KEYDOWN (key : Z)
| OTHER.

Definition K_SPACE : Z := 32.

(** The objects [main] owns. *)
Record t : Type := mk {
  birds : list Bird.t;
  ground : Ground.t;
  pipes : list Pipe.t;
  score : Z
}.

(** What one iteration of the [while] loop comes to: the loop goes on with
    the objects updated; or the game-over screen is shown with the score
    and [main()] is entered afresh, which never returns to this loop; or
    [quit()] leaves the process. *)
Inductive outcome : Type :=
| Running (s : t)
| Ended (final_score : Z)
| Quit.

(** The objects at the start of [main]; [r] is the raw draw of the seed
    pipe's height. *)
Definition start `{Pygame} (r : Z) : t :=
  {| birds := [Bird.init 230 350];
     ground := Ground.init 730;
     pipes := [Pipe.init 700 r];
     score := 0 |}.

(** [for event in pygame.event.get(): ...]; [None] when [quit()] is
    called. *)
Fixpoint user_interaction (events : list event) (birds : list Bird.t)
  : option (list Bird.t) :=
  match events with
  | [] => Some birds
  | QUIT :: _ => None
  | KEYDOWN key :: rest =>
      if key =? K_SPACE
      then user_interaction rest (map Bird.jump birds)
      else user_interaction rest birds
  | OTHER :: rest => user_interaction rest birds
  end.

(** [for i, bird in enumerate(birds): ...] inside the loop over the pipes,
    for one pipe.  [None]: a bird was hit, the game is over. *)
Fixpoint sweep_birds `{Pygame} (pipe : Pipe.t) (birds : list Bird.t)
  (add_pipe : bool) : option (Pipe.t * list Bird.t * bool) :=
  match birds with
  | [] => Some (pipe, [], add_pipe)
  | bird :: rest =>
      let '(hit, (pipe, bird)) := Pipe.collide (pipe, bird) in
      if hit then None
      else
        let '(pipe, add_pipe) :=
          if negb (Pipe.passed pipe) && (Bird.x bird >? Pipe.x pipe)
          then (Pipe.set_passed pipe, true)
          else (pipe, add_pipe) in
        match sweep_birds pipe rest add_pipe with
        | None => None
        | Some (pipe, rest, add_pipe) => Some (pipe, bird :: rest, add_pipe)
        end
  end.

(** [for pipe in pipes: ...].  Each pipe comes back with a mark telling
    whether the loop appended it to [remove_pipes]. *)
Fixpoint sweep_pipes `{Pygame} (pipes : list Pipe.t) (birds : list Bird.t)
  (add_pipe : bool) : option (list (Pipe.t * bool) * list Bird.t * bool) :=
  match pipes with
  | [] => Some ([], birds, add_pipe)
  | pipe :: rest =>
      match sweep_birds pipe birds add_pipe with
      | None => None
      | Some (pipe, birds, add_pipe) =>
          let pipe := Pipe.move pipe in
          let remove := Pipe.x pipe + get_width Pipe.PIPE_TOP <? 0 in
          match sweep_pipes rest birds add_pipe with
          | None => None
          | Some (rest, birds, add_pipe) =>
              Some ((pipe, remove) :: rest, birds, add_pipe)
          end
      end
  end.

(** [for pipe in remove_pipes: pipes.remove(pipe)]: the marked objects
    leave the list. *)
Definition remove_marked (pipes : list (Pipe.t * bool)) : list Pipe.t :=
  map fst (filter (fun p => negb (snd p)) pipes).

(** The pipe loop, then [if add_pipe: ...] and the removals: the new
    birds, pipes and score, or [None] when a bird was hit.  [r] is the raw
    draw for the pipe that may be created. *)
Definition update_pipes `{Pygame} (r : Z) (pipes : list Pipe.t)
  (birds : list Bird.t) (score : Z) : option (list Bird.t * list Pipe.t * Z) :=
  match sweep_pipes pipes birds false with
  | None => None
  | Some (marked, birds, add_pipe) =>
      let '(score, marked) :=
        if add_pipe
        then (score + 1, marked ++ [(Pipe.init 600 r, false)])
        else (score, marked) in
      Some (birds, remove_marked marked, score)
  end.

(** [(bird.y + bird.image.get_height()) > ground.y or bird.y < 0] *)
Definition out_of_bounds `{Pygame} (ground : Ground.t) (bird : Bird.t)
  : bool :=
  Qltb (inject_Z (Ground.y ground))
       (Bird.y bird + inject_Z (get_height (Bird.IMGS (Bird.image bird))))
  || Qltb (Bird.y bird) 0.

(** One iteration of [while running]. *)
Definition tick `{Pygame} (events : list event) (r : Z) (s : t) : outcome :=
  match user_interaction events (birds s) with
  | None => Quit
  | Some birds =>
      let birds := map Bird.move birds in
      let ground := Ground.move (ground s) in
      match update_pipes r (pipes s) birds (score s) with
      | None => Ended (score s)
      | Some (birds, pipes, score) =>
          if existsb (out_of_bounds ground) birds then Ended score
          else Running {| birds := map Bird.draw birds; ground := ground;
                          pipes := pipes; score := score |}
      end
  end.

End Game.

(** ** [main] over several iterations, and the texts it draws *)

(** The [while running] loop for as many iterations as [inputs] is long:
    each iteration has its events and the generator's raw draw.  The loop
    stops at the first iteration that does not leave it running. *)
Fixpoint main_loop `{Pygame} (inputs : list (list Game.event * Z))
  (s : Game.t) : Game.outcome :=
  match inputs with
  | [] => Game.Running s
  | (events, r) :: rest =>
      match Game.tick events r s with
      | Game.Running s' => main_loop rest s'
      | over => over
      end
  end.

(** [draw_screen]: the top left corner of the score text, for a rendered
    text [text_width] wide. *)
Definition score_text_pos (text_width : Z) : Z * Z :=
  (SCREEN_WIDTH - 10 - text_width, 10).

(** [game_over_screen]: the top left corner of the message, for a rendered
    text of the given size; [//] is the division that rounds down. *)
Definition game_over_text_pos (text_width text_height : Z) : Z * Z :=
  (SCREEN_WIDTH / 2 - text_width / 2, SCREEN_HEIGHT / 2 - text_height / 2).

(** ** A concrete sprite set

    Every sprite is a solid rectangle, so a surface and its mask are both a
    (width, height) pair, and two masks overlap when the rectangles do. *)

Definition box_overlap (a b : Z * Z) (offset : Z * Z) : option (Z * Z) :=
  let '(wa, ha) := a in
  let '(wb, hb) := b in
  let '(ox, oy) := offset in
  if (Z.max 0 ox <? Z.min wa (ox + wb)) && (Z.max 0 oy <? Z.min ha (oy + hb))
  then Some (Z.max 0 ox, Z.max 0 oy)
  else None.

Definition boxes : Pygame := {|
  Surface := Z * Z;
  Mask := Z * Z;
  get_width := fst;
  get_height := snd;
  flip := fun s _ _ => s;
  from_surface := fun s => s;
  overlap := box_overlap;
  PIPE_IMAGE := (104, 640);
  GROUND_IMAGE := (672, 224);
  bird1 := (68, 48);
  bird2 := (68, 48);
  bird3 := (68, 48)
|}.

(** ** Statements of the specification, in its own words *)


(** The frame the specification gives for the counter value [c]: the
    indices 0, 1, 2, 1 for five ticks each, over again every twenty. *)
Definition spec_frame (c : Z) : nat :=
  nth (Z.to_nat ((c / 5) mod 4)) [0; 1; 2; 1]%nat 0%nat.

(** The frame [draw] shows as a function of the counter it has reached,
    for a counter in 0..20. *)
Definition frame_of_count (c : Z) : nat :=
  if c <? 5 then 0%nat
  else if c <? 10 then 1%nat
  else if c <? 15 then 2%nat
  else 1%nat.

(** Calls a client can make on a bird between two frames. *)
Inductive call : Type := Jump | Move.

Definition do_call (c : call) : Bird.t -> Bird.t :=
  match c with
  | Jump => Bird.jump
  | Move => Bird.move
  end.


(** [n] calls of [draw] in a row. *)
Definition draws (n : nat) (b : Bird.t) : Bird.t := Nat.iter n Bird.draw b.

(** Whether the events of a tick hold a [QUIT], and whether they hold a
    press of the space bar. *)
Definition is_quit (e : Game.event) : bool :=
  match e with Game.QUIT => true | _ => false end.

Definition is_space (e : Game.event) : bool :=
  match e with Game.KEYDOWN key => key =? Game.K_SPACE | _ => false end.

(** The events handled before the first [QUIT], all of them if none. *)
Fixpoint before_quit (events : list Game.event) : list Game.event :=
  match events with
  | [] => []
  | e :: rest => if is_quit e then [] else e :: before_quit rest
  end.

(** A bird nobody has moved yet: as [Bird(x, y)] leaves it, or as [jump]
    leaves such a bird. *)
Definition unmoved (b : Bird.t) : Prop :=
  Bird.angle b = 0 /\ Bird.time b = 0 /\ (Bird.height b == Bird.y b)%Q /\
  (Bird.speed b == 0 \/ Bird.speed b == -10.5)%Q.

(** The angles of a bird that has moved: 25, 5, -15, ..., -95. *)
Definition tilted (b : Bird.t) : Prop :=
  -95 <= Bird.angle b <= 25 /\ (Bird.angle b - 5) mod 20 = 0.

(** The displacement [move] is about to apply to [b]. *)
Definition next_displacement (b : Bird.t) : Q :=
  Bird.restrict (Bird.raw_displacement (Bird.time b + 1) (Bird.speed b)).

(** What [pipe.collide(bird)] returns. *)
Definition hits `{Pygame} (p : Pipe.t) (b : Bird.t) : bool :=
  fst (Pipe.collide (p, b)).

(** The bird's mask, placed at the bird, meets the mask of the top pipe or
    of the bottom pipe, placed at the pipe. *)
Definition masks_overlap `{Pygame} (p : Pipe.t) (b : Bird.t) : Prop :=
  let bird_mask := from_surface (Bird.IMGS (Bird.image b)) in
  let dx := Pipe.x p - Bird.x b in
  overlap bird_mask (from_surface Pipe.PIPE_TOP)
          (dx, Pipe.top_pos p - py_round (Bird.y b)) <> None \/
  overlap bird_mask (from_surface Pipe.PIPE_BOTTOM)
          (dx, Pipe.bottom_pos p - py_round (Bird.y b)) <> None.

(** The pipe has not been passed yet and some bird is beyond its [x]. *)
Definition passes (birds : list Bird.t) (p : Pipe.t) : bool :=
  negb (Pipe.passed p) && existsb (fun b => Bird.x b >? Pipe.x p) birds.

(** What the pipe loop makes of one pipe when no bird is hit: the pipe
    marked passed if it is passed in this tick, then moved, with the mark
    for removal. *)
Definition swept `{Pygame} (birds : list Bird.t) (p : Pipe.t)
  : Pipe.t * bool :=
  let p' := Pipe.move (if passes birds p then Pipe.set_passed p else p) in
  (p', Pipe.x p' + get_width Pipe.PIPE_TOP <? 0).

(** Two pipes with the same gap: height and both edges. *)
Definition same_gap (p q : Pipe.t) : Prop :=
  Pipe.height q = Pipe.height p /\
  Pipe.top_pos q = Pipe.top_pos p /\
  Pipe.bottom_pos q = Pipe.bottom_pos p.

(** The birds as the pipe loop of a tick sees them: after the jumps of the
    events and the move. *)
Definition moved_birds (events : list Game.event) (s : Game.t)
  : list Bird.t :=
  map Bird.move
      (if existsb is_space events then map Bird.jump (Game.birds s)
       else Game.birds s).

(** The three ways a tick ends the game, on the birds as moved in this
    tick: (a) a bird's mask meets a pipe of the list, (b) a bird's bottom
    edge is below the ground's [y], (c) a bird's top edge is above the
    screen. *)
Definition terminal `{Pygame} (events : list Game.event) (s : Game.t)
  : Prop :=
  (exists p b, In p (Game.pipes s) /\ In b (moved_birds events s) /\
               masks_overlap p b) \/
  (exists b, In b (moved_birds events s) /\
             (inject_Z (Ground.y (Game.ground s)) <
              Bird.y b + inject_Z (get_height (Bird.IMGS (Bird.image b))))%Q) \/
  (exists b, In b (moved_birds events s) /\ (Bird.y b < 0)%Q).

(** A bird and two pipes for the examples: the bird of [main] after one
    move, and two pipes not yet passed that are both behind it. *)
Definition bird_after_one_move : Bird.t := Bird.move (Bird.init 230 350).

Definition two_pipes_behind : list Pipe.t :=
  [Pipe.mk 100 260 (-380) 460 false; Pipe.mk 50 300 (-340) 500 false].

(** The two ground tiles lie end to end and the left one starts at or
    before the left edge of the screen, without being wholly off it by more
    than its own width. *)
Definition belt `{Pygame} (g : Ground.t) : Prop :=
  (Ground.x2 g = Ground.x1 g + Ground.WIDTH /\
   - Ground.WIDTH <= Ground.x1 g <= 0) \/
  (Ground.x1 g = Ground.x2 g + Ground.WIDTH /\
   - Ground.WIDTH <= Ground.x2 g <= 0).

(** ** Vocabulary of the further properties *)

(** The three methods of a bird that assign attributes. *)
Inductive method : Type := MJump | MMove | MDraw.

Definition do_method (m : method) : Bird.t -> Bird.t :=
  match m with
  | MJump => Bird.jump
  | MMove => Bird.move
  | MDraw => Bird.draw
  end.

(** The methods of a list, first to last. *)
Definition do_methods (ms : list method) (b : Bird.t) : Bird.t :=
  fold_left (fun b m => do_method m b) ms b.


(** Positions from left to right, each 380 after the one before. *)
Fixpoint spaced (xs : list Z) : Prop :=
  match xs with
  | a :: (b :: _) as rest => b = a + 380 /\ spaced rest
  | _ => True
  end.

(** The gap of a pipe is as [set_height] makes it. *)
Definition gap_ok `{Pygame} (p : Pipe.t) : Prop :=
  50 <= Pipe.height p < 475 /\
  Pipe.top_pos p = Pipe.height p - get_height Pipe.PIPE_TOP /\
  Pipe.bottom_pos p = Pipe.height p + Pipe.DISTANCE.

(** The pipe is not wholly off the left edge of the screen. *)
Definition on_screen `{Pygame} (p : Pipe.t) : bool :=
  negb (Pipe.x p + get_width Pipe.PIPE_TOP <? 0).

(** What holds of the objects of [main] at the start and after every
    iteration that leaves the loop running. *)
Definition session_ok `{Pygame} (s : Game.t) : Prop :=
  (exists ms, Game.birds s = [do_methods ms (Bird.init 230 350)]) /\
  Ground.y (Game.ground s) = 730 /\
  0 <= Game.score s /\
  Forall gap_ok (Game.pipes s) /\
  Forall (fun p => on_screen p = true) (Game.pipes s) /\
  spaced (map Pipe.x (Game.pipes s)) /\
  exists front last,
    Game.pipes s = front ++ [last] /\
    Forall (fun p => Pipe.passed p = true) front /\
    Pipe.passed last = false /\
    225 <= Pipe.x last <= 700 /\
    Pipe.x last mod 5 = 0.

(** The height of a bird that falls from 350 without a jump, after [k]
    moves. *)
Definition fall_y (k : Z) : Q :=
  if k <=? 0 then 350
  else if k =? 1 then 351.5
  else if k =? 2 then 357.5
  else (371 + 16 * inject_Z (k - 3))%Q.

(** A session for the examples: one passed pipe behind the bird of
    [main], score 3. *)
Definition session_one_passed : Game.t :=
  Game.mk [Bird.init 230 350] (Ground.mk 730 0 672)
          [Pipe.mk 100 260 (-380) 460 true] 3.

(** A bird falling without a jump since the start of [main], [k]
    iterations in; and a bird that has jumped in each of [k] iterations. *)
Definition falling (k : Z) (s : Game.t) : Prop :=
  Ground.y (Game.ground s) = 730 /\
  exists b, Game.birds s = [b] /\ Bird.time b = k /\
            (Bird.speed b == 0)%Q /\ (Bird.y b == fall_y k)%Q.


(** Inputs for the examples: [n] iterations with the space bar pressed in
    every thirteenth, and the same raw draw in all. *)
Definition example_play (n : nat) : list (list Game.event * Z) :=
  map (fun i => (if (i mod 13 =? 0)%nat then [Game.KEYDOWN 32] else [], 160))
      (seq 0 n).

(** * Theorems *)


(** ** Comparisons and rounding *)

Lemma Qltb_lt (a b : Q) : Qltb a b = true <-> (a < b)%Q.
Proof.
  unfold Qltb. rewrite negb_true_iff. split; intro Hab.
  - apply Qnot_le_lt. intro Hle. apply Qle_bool_iff in Hle. congruence.
  - destruct (Qle_bool b a) eqn:E; [|reflexivity].
    apply Qle_bool_iff in E. lra.
Qed.

Lemma Qltb_ge (a b : Q) : Qltb a b = false <-> (b <= a)%Q.
Proof.
  split; intro Hab.
  - destruct (Qlt_le_dec a b) as [Hlt|Hle]; [|exact Hle].
    apply Qltb_lt in Hlt. congruence.
  - destruct (Qltb a b) eqn:E; [|reflexivity].
    apply Qltb_lt in E. lra.
Qed.

(** Case analysis on a comparison, leaving the order fact in the context. *)
Ltac case_Qltb a b :=
  let E := fresh "E" in
  destruct (Qltb a b) eqn:E;
  [apply Qltb_lt in E | apply Qltb_ge in E].

#[local] Instance Qltb_compat : Proper (Qeq ==> Qeq ==> eq) Qltb.
Proof.
  intros a a' Ha b b' Hb. unfold Qltb. now rewrite Ha, Hb.
Qed.

Lemma restrict_cases (d : Q) :
  ((16 < d)%Q /\ Bird.restrict d = 16%Q) \/
  ((d < 0)%Q /\ Bird.restrict d = (d - 2)%Q) \/
  ((0 <= d <= 16)%Q /\ Bird.restrict d = d).
Proof.
  unfold Bird.restrict.
  case_Qltb 16%Q d; [now left|].
  case_Qltb d 0%Q; [right; now left|].
  right; right. now split.
Qed.


(** ** Bird.move: the displacement *)



(** ** Bird.jump *)

(** C7. [jump] sets the impulse [speed] to -10.5, the counter [time] to 0
    and the reference [height] to the current [y]; the other attributes
    keep their values.  It is a total function: it always succeeds. *)
Theorem C7_jump_effect (b : Bird.t) :
  Bird.speed (Bird.jump b) = (-10.5)%Q /\
  Bird.time (Bird.jump b) = 0 /\
  Bird.height (Bird.jump b) = Bird.y b /\
  Bird.x (Bird.jump b) = Bird.x b /\
  Bird.y (Bird.jump b) = Bird.y b /\
  Bird.angle (Bird.jump b) = Bird.angle b /\
  Bird.image_count (Bird.jump b) = Bird.image_count b /\
  Bird.image (Bird.jump b) = Bird.image b.
Proof.
  repeat split.
Qed.

Lemma jump_jump (b : Bird.t) : Bird.jump (Bird.jump b) = Bird.jump b.
Proof.
  reflexivity.
Qed.

Lemma map_jump_jump (bs : list Bird.t) :
  map Bird.jump (map Bird.jump bs) = map Bird.jump bs.
Proof.
  rewrite map_map. apply map_ext. intro b. apply jump_jump.
Qed.

Lemma user_interaction_eq (events : list Game.event) :
  forall bs : list Bird.t,
    Game.user_interaction events bs =
      if existsb is_quit events then None
      else if existsb is_space events then Some (map Bird.jump bs)
      else Some bs.
Proof.
  induction events as [|e rest IH]; intro bs; [reflexivity|].
  destruct e as [|key|]; cbn.
  - reflexivity.
  - destruct (key =? Game.K_SPACE); cbn; rewrite IH; [|reflexivity].
    destruct (existsb is_quit rest); [reflexivity|].
    rewrite map_jump_jump. now destruct (existsb is_space rest).
  - apply IH.
Qed.

(** C9. Jumping once more changes nothing: one or more calls of [jump] in
    a row leave the bird as one call does.  So in the event loop of a
    tick, where every press of the space bar calls [jump] on each bird,
    any number of presses comes to one jump: without a [QUIT] among the
    events the birds are jumped once if the space bar was pressed at all,
    and left alone otherwise. *)
Theorem C9_jump_idempotent :
  (forall (n : nat) (b : Bird.t), Nat.iter (S n) Bird.jump b = Bird.jump b) /\
  (forall (events : list Game.event) (bs : list Bird.t),
      Game.user_interaction events bs =
        if existsb is_quit events then None
        else if existsb is_space events then Some (map Bird.jump bs)
        else Some bs).
Proof.
  split.
  - induction n as [|n IH]; intro b; [reflexivity|].
    change (Bird.jump (Nat.iter (S n) Bird.jump b) = Bird.jump b).
    rewrite IH. apply jump_jump.
  - exact user_interaction_eq.
Qed.

(** ** Bird.move: the angle *)

Lemma move_angle (b : Bird.t) :
  Bird.angle (Bird.move b) =
    if Qltb (next_displacement b) 0
       || Qltb (Bird.y b + next_displacement b) (Bird.height b + 50)
    then Z.max (Bird.angle b) 25
    else if Bird.angle b >? -90 then Bird.angle b - 20 else Bird.angle b.
Proof.
  reflexivity.
Qed.

Lemma unmoved_move (b : Bird.t) : unmoved b -> Bird.angle (Bird.move b) = 25.
Proof.
  intros (Ha & Ht & Hh & Hs). rewrite move_angle, Ha.
  unfold next_displacement, Bird.raw_displacement. rewrite Ht.
  change (inject_Z ((0 + 1) ^ 2)) with 1%Q.
  change (inject_Z (0 + 1)) with 1%Q.
  set (raw := (1.5 * 1 + Bird.speed b * 1)%Q).
  assert (Hraw : (raw == 1.5 \/ raw == -9)%Q) by (subst raw; lra).
  destruct (restrict_cases raw) as [[H ->]|[[H ->]|[H ->]]].
  - lra.
  - replace (Qltb (raw - 2) 0) with true; [reflexivity|].
    symmetry. apply Qltb_lt. lra.
  - replace (Qltb (Bird.y b + raw) (Bird.height b + 50)) with true;
      [now rewrite orb_true_r|].
    symmetry. apply Qltb_lt. lra.
Qed.

Lemma tilted_move (b : Bird.t) : tilted b -> tilted (Bird.move b).
Proof.
  unfold tilted. intros [Hr Hm]. rewrite move_angle.
  destruct (_ || _).
  - replace (Z.max (Bird.angle b) 25) with 25 by lia. split; [lia|reflexivity].
  - destruct (Bird.angle b >? -90) eqn:E; [|now split].
    apply Z.gtb_lt in E.
    assert (Hm' : (Bird.angle b - 20 - 5) mod 20 = 0).
    { replace (Bird.angle b - 20 - 5) with (Bird.angle b - 5 + (-1) * 20)
        by ring.
      now rewrite Z.mod_add by lia. }
    split; [|exact Hm'].
    apply Z.mod_divide in Hm; [|lia]. destruct Hm as [k Hk]. lia.
Qed.

Lemma do_call_angle (c : call) (b : Bird.t) :
  unmoved b \/ tilted b -> unmoved (do_call c b) \/ tilted (do_call c b).
Proof.
  intros [Hu|Ht]; destruct c; cbn [do_call].
  - left. destruct Hu as (Ha & _).
    split; [exact Ha|]. split; [reflexivity|]. split; [reflexivity|].
    right. reflexivity.
  - right. split.
    + rewrite (unmoved_move b Hu). lia.
    + now rewrite (unmoved_move b Hu).
  - right. exact Ht.
  - right. now apply tilted_move.
Qed.





(** ** Bird.draw: the frame *)

Lemma draw_gliding (b : Bird.t) :
  Bird.angle b <= -80 ->
  Bird.image (Bird.draw b) = 1%nat /\ Bird.image_count (Bird.draw b) = 10.
Proof.
  intro Ha. apply Z.leb_le in Ha. unfold Bird.draw. rewrite Ha.
  now destruct (if _ <? _ then _ else _).
Qed.

(** One [draw] of a bird that is not diving and whose frame agrees with
    its counter. *)
Lemma draw_flapping (b : Bird.t) :
  -80 < Bird.angle b ->
  0 <= Bird.image_count b <= 20 ->
  Bird.image b = frame_of_count (Bird.image_count b) ->
  Bird.image_count (Bird.draw b) = (Bird.image_count b + 1) mod 21 /\
  Bird.image (Bird.draw b) = frame_of_count ((Bird.image_count b + 1) mod 21) /\
  Bird.angle (Bird.draw b) = Bird.angle b.
Proof.
  intros Ha Hc Hi. apply Z.leb_gt in Ha.
  unfold Bird.draw. rewrite Ha, Hi. unfold Bird.ANIMATION_TIME.
  set (c := Bird.image_count b) in *.
  assert (Hk : exists k, (k <= 20)%nat /\ c = Z.of_nat k).
  { exists (Z.to_nat c). split; lia. }
  destruct Hk as (k & Hk & ->).
  do 21 (destruct k as [|k]; [now cbn|]). lia.
Qed.

Lemma draws_flapping (n : nat) (b : Bird.t) :
  -80 < Bird.angle b ->
  Bird.image_count b = 0 ->
  Bird.image b = 0%nat ->
  Bird.image_count (draws n b) = Z.of_nat n mod 21 /\
  Bird.image (draws n b) = frame_of_count (Z.of_nat n mod 21) /\
  Bird.angle (draws n b) = Bird.angle b.
Proof.
  intros Ha Hc Hi. induction n as [|n (IHc & IHi & IHa)].
  - cbn. now rewrite Hc, Hi.
  - change (draws (S n) b) with (Bird.draw (draws n b)).
    assert (Hr : 0 <= Z.of_nat n mod 21 < 21) by (apply Z.mod_pos_bound; lia).
    destruct (draw_flapping (draws n b)) as (Hc' & Hi' & Ha').
    + now rewrite IHa.
    + rewrite IHc. lia.
    + now rewrite IHi, IHc.
    + rewrite IHc in Hc', Hi'.
      replace (Z.of_nat (S n) mod 21) with ((Z.of_nat n mod 21 + 1) mod 21).
      * rewrite Hc', Hi', Ha'. now rewrite IHa.
      * rewrite Nat2Z.inj_succ. unfold Z.succ.
        now rewrite Zplus_mod_idemp_l.
Qed.

(** C8, as the code has it.  For a bird that is not diving (angle above
    -80), the counter [image_count] after [n] calls of [draw] from 0 is
    [n mod 21]: it runs through 21 values, not 20.  The frame follows the
    counter: index 0 at 0..4, index 1 at 5..9, index 2 at 10..14 and index 1
    at 15..20.  Whenever the angle is at most -80, [draw] shows index 1,
    whatever the counter, and sets the counter to 10. *)
Theorem C8_animation_frame :
  (forall (n : nat) (b : Bird.t),
      -80 < Bird.angle b ->
      Bird.image_count b = 0 ->
      Bird.image b = 0%nat ->
      Bird.image_count (draws n b) = Z.of_nat n mod 21 /\
      Bird.image (draws n b) = frame_of_count (Z.of_nat n mod 21)) /\
  (forall b : Bird.t,
      Bird.angle b <= -80 ->
      Bird.image (Bird.draw b) = 1%nat /\
      Bird.image_count (Bird.draw b) = 10).
Proof.
  split.
  - intros n b Ha Hc Hi.
    destruct (draws_flapping n b Ha Hc Hi) as (H1 & H2 & _). now split.
  - exact draw_gliding.
Qed.

(** C8 at concrete birds: 26 draws of the bird of [main], and one draw of
    a bird in a dive. *)
Lemma C8_animation_frame_witness :
  (Bird.image_count (draws 26 (Bird.init 230 350)) = 5 /\
   Bird.image (draws 26 (Bird.init 230 350)) = 1%nat) /\
  (Bird.image (Bird.draw (Bird.mk 230 500 (-95) 0 350 12 3 0)) = 1%nat /\
   Bird.image_count (Bird.draw (Bird.mk 230 500 (-95) 0 350 12 3 0)) = 10).
Proof.
  split.
  - apply (proj1 C8_animation_frame 26%nat (Bird.init 230 350));
      [cbn; lia | reflexivity | reflexivity].
  - apply (proj2 C8_animation_frame (Bird.mk 230 500 (-95) 0 350 12 3 0)).
    cbn. lia.
Defined.

(** C8, as the specification has it, fails on the bird of [main], which
    never dives without a move.  The frame is not the 20-tick cycle of the
    counter: at the counter value 20 the frame is still index 1.  Nor does
    the sequence of frames repeat every 20 draws: the 5th draw shows index
    1, the 25th index 0. *)
Lemma C8_counterexample :
  ~ (forall n : nat,
        Bird.image (draws n (Bird.init 230 350)) =
          spec_frame (Bird.image_count (draws n (Bird.init 230 350)))) /\
  ~ (forall n : nat,
        Bird.image (draws (n + 20) (Bird.init 230 350)) =
          Bird.image (draws n (Bird.init 230 350))).
Proof.
  split; intro H.
  - specialize (H 20%nat). vm_compute in H. discriminate.
  - specialize (H 5%nat). vm_compute in H. discriminate.
Qed.

(** ** Pipe.collide *)

Lemma collide_eq `{Pygame} (p : Pipe.t) (b : Bird.t) :
  Pipe.collide (p, b) =
    (truthy (overlap (from_surface (Bird.IMGS (Bird.image b)))
                     (from_surface Pipe.PIPE_TOP)
                     (Pipe.x p - Bird.x b,
                      Pipe.top_pos p - py_round (Bird.y b)))
     || truthy (overlap (from_surface (Bird.IMGS (Bird.image b)))
                        (from_surface Pipe.PIPE_BOTTOM)
                        (Pipe.x p - Bird.x b,
                         Pipe.bottom_pos p - py_round (Bird.y b))),
     (p, b)).
Proof.
  unfold Pipe.collide, bind, on_snd, Bird.get_mask, gets, ret. cbn.
  now destruct (_ || _).
Qed.

Lemma collide_frame `{Pygame} (p : Pipe.t) (b : Bird.t) :
  Pipe.collide (p, b) = (hits p b, (p, b)).
Proof.
  unfold hits. now rewrite collide_eq.
Qed.

Lemma truthy_Some {A} (o : option A) : truthy o = true <-> o <> None.
Proof.
  destruct o; cbn; split; congruence.
Qed.

Lemma hits_overlap `{Pygame} (p : Pipe.t) (b : Bird.t) :
  hits p b = true <-> masks_overlap p b.
Proof.
  unfold hits, masks_overlap. rewrite collide_eq. cbn [fst].
  now rewrite orb_true_iff, !truthy_Some.
Qed.

Lemma hits_set_passed `{Pygame} (p : Pipe.t) (b : Bird.t) :
  hits (Pipe.set_passed p) b = hits p b.
Proof.
  unfold hits. now rewrite !collide_eq.
Qed.

Lemma existsb_hits_set_passed `{Pygame} (p : Pipe.t) (bs : list Bird.t) :
  existsb (hits (Pipe.set_passed p)) bs = existsb (hits p) bs.
Proof.
  induction bs as [|b bs IH]; [reflexivity|].
  cbn. now rewrite hits_set_passed, IH.
Qed.

(** C10. [collide] is a query.  Run on a pipe and a bird it hands back
    the same pipe and the same bird, every attribute as it was, and so
    does [get_mask] on the bird; a second call on what the first one left
    returns the same boolean. *)
Theorem C10_collide_pure `{Pygame} (p : Pipe.t) (b : Bird.t) :
  snd (Pipe.collide (p, b)) = (p, b) /\
  snd (Bird.get_mask b) = b /\
  fst (Pipe.collide (snd (Pipe.collide (p, b)))) = fst (Pipe.collide (p, b)).
Proof.
  rewrite collide_frame. cbn [fst snd]. rewrite collide_frame.
  repeat split.
Qed.

(** ** Pipe: the gap *)

Lemma randrange_bounds (start stop r : Z) :
  start < stop -> start <= randrange start stop r < stop.
Proof.
  intro H. unfold randrange.
  pose proof (Z.mod_pos_bound r (stop - start)). lia.
Qed.

(** ** The pipe loop *)

Lemma sweep_birds_eq `{Pygame} (birds : list Bird.t) :
  forall (pipe : Pipe.t) (add_pipe : bool),
    Game.sweep_birds pipe birds add_pipe =
      if existsb (hits pipe) birds then None
      else Some (if passes birds pipe then Pipe.set_passed pipe else pipe,
                 birds,
                 add_pipe || passes birds pipe).
Proof.
  induction birds as [|bird rest IH]; intros pipe add_pipe.
  - cbn. unfold passes. cbn. now rewrite andb_false_r, orb_false_r.
  - cbn [Game.sweep_birds existsb]. rewrite collide_frame.
    destruct (hits pipe bird) eqn:Hhit; [reflexivity|]. cbn [orb].
    destruct (Pipe.passed pipe) eqn:Hp; cbn [negb andb].
    + rewrite IH. unfold passes. rewrite Hp. cbn [negb andb].
      now destruct (existsb (hits pipe) rest).
    + destruct (Bird.x bird >? Pipe.x pipe) eqn:Hx; cbn [orb].
      * rewrite IH.
        rewrite existsb_hits_set_passed.
        unfold passes. cbn [Pipe.passed Pipe.set_passed negb andb existsb].
        rewrite Hp, Hx. cbn [negb andb orb]. rewrite orb_true_r.
        now destruct (existsb (hits pipe) rest).
      * rewrite IH. unfold passes. cbn [existsb]. rewrite Hp, Hx.
        cbn [negb andb orb].
        now destruct (existsb (hits pipe) rest).
Qed.

Lemma sweep_pipes_eq `{Pygame} (pipes : list Pipe.t) :
  forall (birds : list Bird.t) (add_pipe : bool),
    Game.sweep_pipes pipes birds add_pipe =
      if existsb (fun p => existsb (hits p) birds) pipes then None
      else Some (map (swept birds) pipes,
                 birds,
                 add_pipe || existsb (passes birds) pipes).
Proof.
  induction pipes as [|pipe rest IH]; intros birds add_pipe.
  - cbn. now rewrite orb_false_r.
  - cbn [Game.sweep_pipes existsb map]. rewrite sweep_birds_eq.
    destruct (existsb (hits pipe) birds); [reflexivity|]. cbn [orb].
    rewrite IH.
    destruct (existsb (fun p => existsb (hits p) birds) rest); [reflexivity|].
    unfold swept at 1. now rewrite orb_assoc.
Qed.

Lemma update_pipes_eq `{Pygame} (r : Z) (pipes : list Pipe.t)
  (birds : list Bird.t) (score : Z) :
  Game.update_pipes r pipes birds score =
    if existsb (fun p => existsb (hits p) birds) pipes then None
    else if existsb (passes birds) pipes
    then Some (birds,
               Game.remove_marked (map (swept birds) pipes)
                 ++ [Pipe.init 600 r],
               score + 1)
    else Some (birds, Game.remove_marked (map (swept birds) pipes), score).
Proof.
  unfold Game.update_pipes. rewrite sweep_pipes_eq.
  destruct (existsb (fun p => existsb (hits p) birds) pipes); [reflexivity|].
  cbn [orb]. destruct (existsb (passes birds) pipes); [|reflexivity].
  f_equal. f_equal. f_equal.
  unfold Game.remove_marked. rewrite filter_app, map_app. reflexivity.
Qed.

Lemma tick_eq `{Pygame} (events : list Game.event) (r : Z) (s : Game.t) :
  Game.tick events r s =
    if existsb is_quit events then Game.Quit
    else
      let birds := moved_birds events s in
      let ground := Ground.move (Game.ground s) in
      match Game.update_pipes r (Game.pipes s) birds (Game.score s) with
      | None => Game.Ended (Game.score s)
      | Some (birds, pipes, score) =>
          if existsb (Game.out_of_bounds ground) birds then Game.Ended score
          else Game.Running (Game.mk (map Bird.draw birds) ground pipes score)
      end.
Proof.
  unfold Game.tick, moved_birds. rewrite user_interaction_eq.
  destruct (existsb is_quit events); [reflexivity|].
  now destruct (existsb is_space events).
Qed.

Lemma in_remove_marked `{Pygame} (birds : list Bird.t) (pipes : list Pipe.t)
  (q : Pipe.t) :
  In q (Game.remove_marked (map (swept birds) pipes)) ->
  exists p, In p pipes /\ q = fst (swept birds p).
Proof.
  unfold Game.remove_marked. rewrite in_map_iff.
  intros (m & Hq & Hm). apply filter_In in Hm. destruct Hm as [Hm _].
  apply in_map_iff in Hm. destruct Hm as (p & Hp & Hin).
  exists p. split; [exact Hin|]. now rewrite Hp.
Qed.

Lemma swept_gap `{Pygame} (birds : list Bird.t) (p : Pipe.t) :
  same_gap p (fst (swept birds p)).
Proof.
  unfold swept, same_gap. cbn [fst]. now destruct (passes birds p).
Qed.

Lemma tick_pipes `{Pygame} (events : list Game.event) (r : Z)
  (s s' : Game.t) :
  Game.tick events r s = Game.Running s' ->
  let birds := moved_birds events s in
  Game.pipes s' =
    Game.remove_marked (map (swept birds) (Game.pipes s))
      ++ (if existsb (passes birds) (Game.pipes s)
          then [Pipe.init 600 r] else []) /\
  Game.score s' =
    Game.score s + (if existsb (passes birds) (Game.pipes s) then 1 else 0).
Proof.
  rewrite tick_eq. destruct (existsb is_quit events); [discriminate|].
  cbv zeta. rewrite update_pipes_eq.
  destruct (existsb (fun p => existsb (hits p) _) _); [discriminate|].
  destruct (existsb (passes _) _);
    destruct (existsb (Game.out_of_bounds _) _); try discriminate;
    intro E; injection E as <-; cbn [Game.pipes Game.score];
    rewrite ?app_nil_r, ?Z.add_0_r; now split.
Qed.

(** C6. A pipe as [Pipe(x)] creates it, whatever the generator draws, has
    its gap height in [50, 475), its top edge at the height less the height
    of the top image and its bottom edge at the height plus 200.  Nothing
    changes these afterwards: not [move], not the passed mark, and so not a
    tick of the game, after which every pipe of the list is the pipe just
    created at 600 or a pipe of the list before with its gap as it was. *)
Theorem C6_pipe_gap `{Pygame} :
  (forall x0 r : Z,
      let p := Pipe.init x0 r in
      50 <= Pipe.height p < 475 /\
      Pipe.top_pos p = Pipe.height p - get_height Pipe.PIPE_TOP /\
      Pipe.bottom_pos p = Pipe.height p + 200) /\
  (forall p : Pipe.t, same_gap p (Pipe.move p)) /\
  (forall p : Pipe.t, same_gap p (Pipe.set_passed p)) /\
  (forall (events : list Game.event) (r : Z) (s s' : Game.t),
      Game.tick events r s = Game.Running s' ->
      forall q : Pipe.t,
        In q (Game.pipes s') ->
        q = Pipe.init 600 r \/
        exists p, In p (Game.pipes s) /\ same_gap p q).
Proof.
  split; [|split; [|split]].
  - intros x0 r p. subst p.
    unfold Pipe.init, Pipe.set_height, Pipe.DISTANCE.
    cbn [Pipe.height Pipe.top_pos Pipe.bottom_pos].
    split; [apply randrange_bounds; lia|]. now split.
  - intro p. now repeat split.
  - intro p. now repeat split.
  - intros events r s s' Ht q Hq.
    destruct (tick_pipes events r s s' Ht) as [Hp _]. rewrite Hp in Hq.
    apply in_app_or in Hq. destruct Hq as [Hq|Hq].
    + right. apply in_remove_marked in Hq. destruct Hq as (p & Hin & ->).
      exists p. split; [exact Hin|apply swept_gap].
    + left. destruct (existsb _ _); cbn in Hq; [|contradiction].
      destruct Hq as [Hq|[]]. now symmetry.
Qed.

(** ** The pipe loop: scoring *)

Lemma filter_nonempty_existsb {A} (f : A -> bool) (l : list A) :
  (1 <= length (filter f l))%nat -> existsb f l = true.
Proof.
  induction l as [|a l IH]; cbn; [lia|].
  destruct (f a); [reflexivity|exact IH].
Qed.

(** C3, as the code has it.  When no bird is hit and [n >= 1] pipes are
    passed in the same tick, the pipe loop and what follows it add 1 to the
    score, whatever [n] is, and append one new pipe, created at [x = 600],
    to the pipes that stay. *)
Theorem C3_passes_coalesce `{Pygame} (r : Z) (pipes : list Pipe.t)
  (birds : list Bird.t) (score : Z) :
  existsb (fun p => existsb (hits p) birds) pipes = false ->
  (1 <= length (filter (passes birds) pipes))%nat ->
  Game.update_pipes r pipes birds score =
    Some (birds,
          Game.remove_marked (map (swept birds) pipes) ++ [Pipe.init 600 r],
          score + 1) /\
  Pipe.x (Pipe.init 600 r) = 600.
Proof.
  intros Hhit Hn. rewrite update_pipes_eq, Hhit.
  rewrite (filter_nonempty_existsb _ _ Hn). now split.
Qed.

(** C3 on the solid sprites: two pipes passed by the bird in one tick. *)
Lemma C3_passes_coalesce_witness :
  let birds := [bird_after_one_move] in
  length (filter (passes birds) two_pipes_behind) = 2%nat /\
  @Game.update_pipes boxes 7 two_pipes_behind birds 0 =
    Some (birds,
          Game.remove_marked (map (@swept boxes birds) two_pipes_behind)
            ++ [@Pipe.init boxes 600 7],
          0 + 1) /\
  Pipe.x (@Pipe.init boxes 600 7) = 600.
Proof.
  intro birds. split; [reflexivity|].
  apply (@C3_passes_coalesce boxes 7 two_pipes_behind birds 0).
  - vm_compute. reflexivity.
  - vm_compute. lia.
Defined.

(** C3, as the specification has it, fails: with two pipes passed in one
    tick the score goes up by 1, not by 2, and one pipe is created, not
    two. *)
Lemma C3_counterexample :
  ~ (forall (r : Z) (pipes : list Pipe.t) (birds : list Bird.t) (score : Z),
        existsb (fun p => existsb (@hits boxes p) birds) pipes = false ->
        let n := length (filter (passes birds) pipes) in
        (2 <= n)%nat ->
        exists ps,
          @Game.update_pipes boxes r pipes birds score =
            Some (birds, ps, score + Z.of_nat n) /\
          length ps =
            (length (Game.remove_marked (map (@swept boxes birds) pipes))
             + n)%nat).
Proof.
  intro H.
  destruct (H 7 two_pipes_behind [bird_after_one_move] 0) as (ps & E & _).
  - vm_compute. reflexivity.
  - vm_compute. lia.
  - vm_compute in E. discriminate.
Qed.

(** C6 on the solid sprites: the first tick of a game. *)
Lemma C6_pipe_gap_witness :
  exists s' : Game.t,
    @Game.tick boxes [] 7 (@Game.start boxes 100) = Game.Running s' /\
    forall q : Pipe.t,
      In q (Game.pipes s') ->
      q = @Pipe.init boxes 600 7 \/
      exists p, In p (Game.pipes (@Game.start boxes 100)) /\ same_gap p q.
Proof.
  eexists. split.
  - vm_compute. reflexivity.
  - apply (proj2 (proj2 (proj2 (@C6_pipe_gap boxes)))
             [] 7 (@Game.start boxes 100)).
    vm_compute. reflexivity.
Defined.

(** ** The end of a session *)

Lemma existsb_hits_iff `{Pygame} (pipes : list Pipe.t) (birds : list Bird.t) :
  existsb (fun p => existsb (hits p) birds) pipes = true <->
  exists p b, In p pipes /\ In b birds /\ masks_overlap p b.
Proof.
  rewrite existsb_exists. split.
  - intros (p & Hp & Hb). apply existsb_exists in Hb.
    destruct Hb as (b & Hb & Hh). exists p, b.
    repeat split; [exact Hp|exact Hb|now apply hits_overlap].
  - intros (p & b & Hp & Hb & Hh). exists p. split; [exact Hp|].
    apply existsb_exists. exists b. split; [exact Hb|now apply hits_overlap].
Qed.

Lemma out_of_bounds_iff `{Pygame} (g : Ground.t) (b : Bird.t) :
  Game.out_of_bounds (Ground.move g) b = true <->
  (inject_Z (Ground.y g) <
   Bird.y b + inject_Z (get_height (Bird.IMGS (Bird.image b))))%Q \/
  (Bird.y b < 0)%Q.
Proof.
  unfold Game.out_of_bounds. cbn [Ground.move Ground.y].
  now rewrite orb_true_iff, !Qltb_lt.
Qed.

Lemma existsb_out_of_bounds_iff `{Pygame} (g : Ground.t)
  (birds : list Bird.t) :
  existsb (Game.out_of_bounds (Ground.move g)) birds = true <->
  (exists b, In b birds /\
     (inject_Z (Ground.y g) <
      Bird.y b + inject_Z (get_height (Bird.IMGS (Bird.image b))))%Q) \/
  (exists b, In b birds /\ (Bird.y b < 0)%Q).
Proof.
  rewrite existsb_exists. split.
  - intros (b & Hb & Ho). apply out_of_bounds_iff in Ho.
    destruct Ho as [Ho|Ho]; [left|right]; now exists b.
  - intros [(b & Hb & Ho)|(b & Hb & Ho)]; exists b;
      (split; [exact Hb|apply out_of_bounds_iff]); [now left|now right].
Qed.

(** The boolean the tick decides on. *)
Lemma terminal_iff `{Pygame} (events : list Game.event) (s : Game.t) :
  existsb (fun p => existsb (hits p) (moved_birds events s)) (Game.pipes s)
  || existsb (Game.out_of_bounds (Ground.move (Game.ground s)))
             (moved_birds events s) = true <->
  terminal events s.
Proof.
  unfold terminal.
  rewrite orb_true_iff, existsb_hits_iff, existsb_out_of_bounds_iff.
  reflexivity.
Qed.

Lemma tick_outcome `{Pygame} (events : list Game.event) (r : Z)
  (s : Game.t) :
  existsb is_quit events = false ->
  let over :=
    existsb (fun p => existsb (hits p) (moved_birds events s)) (Game.pipes s)
    || existsb (Game.out_of_bounds (Ground.move (Game.ground s)))
               (moved_birds events s) in
  (over = true /\ exists sc, Game.tick events r s = Game.Ended sc) \/
  (over = false /\ exists s', Game.tick events r s = Game.Running s').
Proof.
  intros Hq over. subst over. rewrite tick_eq, Hq. cbv zeta.
  rewrite update_pipes_eq.
  destruct (existsb (fun p => existsb (hits p) _) _); cbn [orb].
  - left. split; [reflexivity|]. now eexists.
  - destruct (existsb (passes _) _);
      destruct (existsb (Game.out_of_bounds _) _);
      (left + right); (split; [reflexivity|]); now eexists.
Qed.

(** C2. In a tick without a [QUIT], the loop of [main] ends the game
    exactly when, for the bird as moved in this tick, (a) its mask meets
    the top or bottom mask of a pipe of the list, or (b) its bottom edge,
    [y] plus the height of its image, is below the ground's [y], or (c) its
    top edge is above the screen, [y < 0]; in every other case the loop
    goes on with the objects updated. *)
Theorem C2_session_ends `{Pygame} (events : list Game.event) (r : Z)
  (s : Game.t) :
  existsb is_quit events = false ->
  ((exists sc, Game.tick events r s = Game.Ended sc) <-> terminal events s) /\
  ((exists s', Game.tick events r s = Game.Running s') <->
   ~ terminal events s).
Proof.
  intro Hq. rewrite <- terminal_iff.
  destruct (tick_outcome events r s Hq) as [[Ho [sc E]]|[Ho [s' E]]];
    rewrite Ho, E; split; split; try congruence.
  - intros _. now exists sc.
  - intros [s' E']. discriminate.
  - intros [sc E']. discriminate.
  - intros _. now exists s'.
Qed.

(** C2 on the solid sprites: the first tick of a game. *)
Lemma C2_session_ends_witness :
  ((exists sc, @Game.tick boxes [] 7 (@Game.start boxes 100) = Game.Ended sc)
   <-> @terminal boxes [] (@Game.start boxes 100)) /\
  ((exists s', @Game.tick boxes [] 7 (@Game.start boxes 100) = Game.Running s')
   <-> ~ @terminal boxes [] (@Game.start boxes 100)).
Proof.
  apply (@C2_session_ends boxes [] 7 (@Game.start boxes 100)).
  reflexivity.
Defined.

(** ** Ground *)

Section GroundBelt.

Context `{Pygame}.
Hypothesis wide : SCREEN_WIDTH <= Ground.WIDTH.

Lemma belt_init (y0 : Z) : belt (Ground.init y0).
Proof.
  unfold belt, SCREEN_WIDTH in *. cbn. left. lia.
Qed.

Lemma belt_move (g : Ground.t) : belt g -> belt (Ground.move g).
Proof.
  unfold belt, Ground.move, Ground.SPEED, SCREEN_WIDTH in *.
  cbn [Ground.x1 Ground.x2].
  intros [[E Hr]|[E Hr]];
    destruct (Ground.x1 g - 5 + Ground.WIDTH <? 0) eqn:E1;
    [apply Z.ltb_lt in E1|apply Z.ltb_ge in E1
    |apply Z.ltb_lt in E1|apply Z.ltb_ge in E1];
    match goal with
    | |- context [?a <? 0] =>
        destruct (a <? 0) eqn:E2;
        [apply Z.ltb_lt in E2|apply Z.ltb_ge in E2]
    end; lia.
Qed.

Lemma belt_moves (y0 : Z) (n : nat) :
  belt (Nat.iter n Ground.move (Ground.init y0)).
Proof.
  induction n as [|n IH]; [apply belt_init|].
  cbn [Nat.iter]. now apply belt_move.
Qed.

(** C4. With a ground image at least as wide as the screen, after any
    number of calls of [move] from the initial ground the two tiles lie end
    to end, one of the two positions is in (-WIDTH, WIDTH], and every
    column of the screen, from 0 up to SCREEN_WIDTH, is under one of the
    two tiles. *)
Theorem C4_ground_covers (y0 : Z) (n : nat) :
  let g := Nat.iter n Ground.move (Ground.init y0) in
  (- Ground.WIDTH < Ground.x1 g <= Ground.WIDTH \/
   - Ground.WIDTH < Ground.x2 g <= Ground.WIDTH) /\
  (Ground.x2 g = Ground.x1 g + Ground.WIDTH \/
   Ground.x1 g = Ground.x2 g + Ground.WIDTH) /\
  (forall px : Z,
      0 <= px < SCREEN_WIDTH ->
      Ground.x1 g <= px < Ground.x1 g + Ground.WIDTH \/
      Ground.x2 g <= px < Ground.x2 g + Ground.WIDTH).
Proof.
  intro g. pose proof (belt_moves y0 n) as Hb. fold g in Hb.
  unfold belt, SCREEN_WIDTH in *.
  split; [|split].
  - lia.
  - lia.
  - intros px Hpx. lia.
Qed.

End GroundBelt.

(** C4 on a ground image 672 wide, at the 135th move, where the first tile
    has just been put behind the second. *)
Lemma C4_ground_covers_witness :
  let g := Nat.iter 135 (@Ground.move boxes) (@Ground.init boxes 730) in
  (Ground.x1 g = 669 /\ Ground.x2 g = -3) /\
  (- @Ground.WIDTH boxes < Ground.x1 g <= @Ground.WIDTH boxes \/
   - @Ground.WIDTH boxes < Ground.x2 g <= @Ground.WIDTH boxes) /\
  (Ground.x2 g = Ground.x1 g + @Ground.WIDTH boxes \/
   Ground.x1 g = Ground.x2 g + @Ground.WIDTH boxes) /\
  (forall px : Z,
      0 <= px < SCREEN_WIDTH ->
      Ground.x1 g <= px < Ground.x1 g + @Ground.WIDTH boxes \/
      Ground.x2 g <= px < Ground.x2 g + @Ground.WIDTH boxes).
Proof.
  intro g. split; [split; reflexivity|].
  apply (@C4_ground_covers boxes). vm_compute. discriminate.
Defined.

(** * Further properties of the code *)

(** ** Bird.move: how far a tick can take the bird *)

Lemma move_y (b : Bird.t) :
  Bird.y (Bird.move b) = (Bird.y b + next_displacement b)%Q.
Proof.
  reflexivity.
Qed.

#[local] Instance restrict_compat : Proper (Qeq ==> Qeq) Bird.restrict.
Proof.
  intros d d' Hd. unfold Bird.restrict.
  rewrite (Qltb_compat _ _ (Qeq_refl 16) _ _ Hd).
  rewrite (Qltb_compat _ _ Hd _ _ (Qeq_refl 0)).
  destruct (Qltb 16 d'); [reflexivity|].
  destruct (Qltb d' 0); [rewrite Hd; reflexivity|exact Hd].
Qed.




Lemma raw_without_impulse (t : Z) :
  (Bird.raw_displacement t 0 == inject_Z (3 * (t * t)) * (1 # 2))%Q.
Proof.
  unfold Bird.raw_displacement. replace (t ^ 2) with (t * t) by ring.
  rewrite !inject_Z_mult. change (inject_Z 3) with 3%Q.
  set (T := inject_Z t). ring.
Qed.

#[local] Instance raw_displacement_compat (t : Z) :
  Proper (Qeq ==> Qeq) (Bird.raw_displacement t).
Proof.
  intros v v' Hv. unfold Bird.raw_displacement. now rewrite Hv.
Qed.




(** ** Bird.move: falling and jumping *)



Lemma next_displacement_eq (b : Bird.t) (t : Z) (v : Q) :
  Bird.time b + 1 = t -> (Bird.speed b == v)%Q ->
  (next_displacement b == Bird.restrict (Bird.raw_displacement t v))%Q.
Proof.
  intros <- Hv. unfold next_displacement. now rewrite Hv.
Qed.

(** Without an impulse the clamp is reached at the fourth tick. *)
Lemma fall_terminal (t : Z) :
  4 <= t -> (Bird.restrict (Bird.raw_displacement t 0) == 16)%Q.
Proof.
  intro Ht. rewrite raw_without_impulse.
  assert (H48 : (inject_Z 48 <= inject_Z (3 * (t * t)))%Q).
  { rewrite <- Zle_Qle. nia. }
  change (inject_Z 48) with 48%Q in H48.
  destruct (restrict_cases (inject_Z (3 * (t * t)) * (1 # 2)))
    as [[H ->]|[[H ->]|[H ->]]]; lra.
Qed.

Lemma fall_first_moves :
  (Bird.restrict (Bird.raw_displacement 1 0) == 1.5 /\
   Bird.restrict (Bird.raw_displacement 2 0) == 6 /\
   Bird.restrict (Bird.raw_displacement 3 0) == 13.5)%Q.
Proof.
  repeat split.
Qed.









(** ** Bird: what holds through jump, move and draw *)

Lemma draw_keeps (b : Bird.t) :
  Bird.x (Bird.draw b) = Bird.x b /\ Bird.y (Bird.draw b) = Bird.y b /\
  Bird.angle (Bird.draw b) = Bird.angle b /\
  Bird.speed (Bird.draw b) = Bird.speed b /\
  Bird.height (Bird.draw b) = Bird.height b /\
  Bird.time (Bird.draw b) = Bird.time b.
Proof.
  unfold Bird.draw.
  destruct (if _ <? _ then _ else _) as [img count].
  destruct (if _ <=? _ then _ else _) as [img' count'].
  repeat split.
Qed.

Lemma draw_counter_range (b : Bird.t) :
  0 <= Bird.image_count b <= 20 ->
  (Bird.image b <= 2)%nat ->
  0 <= Bird.image_count (Bird.draw b) <= 20 /\
  (Bird.image (Bird.draw b) <= 2)%nat.
Proof.
  intros Hc Hi. unfold Bird.draw, Bird.ANIMATION_TIME.
  destruct (Bird.angle b <=? -80); [cbn; repeat
    match goal with |- context [if ?c then _ else _] => destruct c end;
    cbn; lia|].
  repeat match goal with
         | |- context [?a <? ?c] =>
             destruct (Z.ltb_spec a c)
         | |- context [?a >=? ?c] =>
             let E := fresh in destruct (a >=? c) eqn:E;
             [apply Z.geb_le in E|rewrite Z.geb_leb in E; apply Z.leb_gt in E]
         end; cbn; lia.
Qed.

Lemma draw_angle_inv (b : Bird.t) :
  unmoved b \/ tilted b -> unmoved (Bird.draw b) \/ tilted (Bird.draw b).
Proof.
  destruct (draw_keeps b) as (_ & Ey & Ea & Es & Eh & Et).
  unfold unmoved, tilted. now rewrite Ey, Ea, Es, Eh, Et.
Qed.

Lemma do_method_inv (m : method) (b : Bird.t) :
  (unmoved b \/ tilted b) /\ 0 <= Bird.image_count b <= 20 /\
  (Bird.image b <= 2)%nat ->
  (unmoved (do_method m b) \/ tilted (do_method m b)) /\
  0 <= Bird.image_count (do_method m b) <= 20 /\
  (Bird.image (do_method m b) <= 2)%nat.
Proof.
  intros (Ha & Hc & Hi). destruct m; cbn [do_method].
  - split; [exact (do_call_angle Jump b Ha)|now split].
  - split; [exact (do_call_angle Move b Ha)|now split].
  - split; [now apply draw_angle_inv|now apply draw_counter_range].
Qed.

Lemma do_method_x (m : method) (b : Bird.t) :
  Bird.x (do_method m b) = Bird.x b.
Proof.
  destruct m; [reflexivity|reflexivity|apply draw_keeps].
Qed.

Lemma do_methods_inv (ms : list method) (b : Bird.t) :
  (unmoved b \/ tilted b) /\ 0 <= Bird.image_count b <= 20 /\
  (Bird.image b <= 2)%nat ->
  Bird.x (do_methods ms b) = Bird.x b /\
  (unmoved (do_methods ms b) \/ tilted (do_methods ms b)) /\
  0 <= Bird.image_count (do_methods ms b) <= 20 /\
  (Bird.image (do_methods ms b) <= 2)%nat.
Proof.
  revert b. induction ms as [|m ms IH]; intros b Hb.
  - now split.
  - change (do_methods (m :: ms) b) with (do_methods ms (do_method m b)).
    destruct (IH (do_method m b) (do_method_inv m b Hb)) as [Hx Hrest].
    split; [now rewrite Hx, do_method_x|exact Hrest].
Qed.

Lemma init_inv (x0 : Z) (y0 : Q) :
  (unmoved (Bird.init x0 y0) \/ tilted (Bird.init x0 y0)) /\
  0 <= Bird.image_count (Bird.init x0 y0) <= 20 /\
  (Bird.image (Bird.init x0 y0) <= 2)%nat.
Proof.
  split; [|cbn; lia]. left.
  split; [reflexivity|]. split; [reflexivity|]. split; [reflexivity|].
  left. reflexivity.
Qed.

Lemma angle_range (b : Bird.t) :
  unmoved b \/ tilted b -> -95 <= Bird.angle b <= 25.
Proof.
  intros [(Ha & _)|[Hr _]]; [lia|exact Hr].
Qed.




(** ** Pipe: scrolling and the gap *)

(** X6. Moving a pipe [n] times takes exactly [5 n] off its [x] and
    changes nothing else: not the gap, not the passed mark. *)
Theorem X6_pipe_moves (n : nat) (p : Pipe.t) :
  Pipe.x (Nat.iter n Pipe.move p) = Pipe.x p - 5 * Z.of_nat n /\
  same_gap p (Nat.iter n Pipe.move p) /\
  Pipe.passed (Nat.iter n Pipe.move p) = Pipe.passed p.
Proof.
  induction n as [|n (IHx & (IHh & IHt & IHb) & IHp)].
  - cbn. split; [lia|]. now repeat split.
  - change (Nat.iter (S n) Pipe.move p)
      with (Pipe.move (Nat.iter n Pipe.move p)).
    set (q := Nat.iter n Pipe.move p) in *.
    unfold same_gap, Pipe.move, Pipe.SPEED.
    cbn [Pipe.x Pipe.passed Pipe.height Pipe.top_pos Pipe.bottom_pos].
    split; [lia|]. now repeat split.
Qed.

(** X7. Every height from 50 up to 474 is a height the constructor can
    draw, the lower end 50 included. *)
Theorem X7_gap_heights_attained `{Pygame} (x0 h : Z) :
  50 <= h < 475 ->
  exists r : Z, Pipe.height (Pipe.init x0 r) = h.
Proof.
  intro Hh. exists (h - 50).
  unfold Pipe.init, Pipe.set_height, randrange. cbn [Pipe.height].
  rewrite Z.mod_small by lia. lia.
Qed.

Lemma X7_gap_heights_attained_witness :
  exists r : Z, Pipe.height (@Pipe.init boxes 600 r) = 50.
Proof.
  apply (@X7_gap_heights_attained boxes 600 50). lia.
Defined.

(** ** Pipe.collide: what the test depends on *)

#[local] Instance py_round_compat : Proper (Qeq ==> eq) py_round.
Proof.
  intros q q' Hq. unfold py_round.
  rewrite (Qfloor_comp q q' Hq).
  assert (Hr : (q - inject_Z (Qfloor q') == q' - inject_Z (Qfloor q'))%Q)
    by (rewrite Hq; reflexivity).
  rewrite (Qltb_compat _ _ Hr _ _ (Qeq_refl 0.5)).
  rewrite (Qltb_compat _ _ (Qeq_refl 0.5) _ _ Hr).
  reflexivity.
Qed.

(** X8. The collision test sees the horizontal positions, the two edges
    of the pipe, the bird's height and the bird's frame, and nothing else:
    the angle of the bird, its impulse, counters and reference height, and
    the gap height and passed mark of the pipe do not enter. *)
Theorem X8_collide_depends_on `{Pygame} (p p' : Pipe.t) (b b' : Bird.t) :
  Pipe.x p = Pipe.x p' ->
  Pipe.top_pos p = Pipe.top_pos p' ->
  Pipe.bottom_pos p = Pipe.bottom_pos p' ->
  Bird.x b = Bird.x b' ->
  (Bird.y b == Bird.y b')%Q ->
  Bird.image b = Bird.image b' ->
  hits p b = hits p' b'.
Proof.
  intros Hx Ht Hb Hbx Hy Hi. unfold hits. rewrite !collide_eq. cbn [fst].
  now rewrite Hx, Ht, Hb, Hbx, Hi, (py_round_compat _ _ Hy).
Qed.

Lemma X8_collide_depends_on_witness :
  @hits boxes (Pipe.mk 300 260 (-380) 460 false)
        (Bird.mk 230 350 25 0 350 3 7 1) =
  @hits boxes (Pipe.mk 300 100 (-380) 460 true)
        (Bird.mk 230 (700 # 2) (-95)%Z (-10.5) 0 9 0 1).
Proof.
  apply (@X8_collide_depends_on boxes); reflexivity.
Defined.

(** X9. Only the horizontal distance between pipe and bird matters:
    shifting both by the same amount does not change the test, and so
    moving the pipe 5 to the left is the same, for the test, as moving the
    bird 5 to the right. *)
Theorem X9_collide_relative `{Pygame} (p : Pipe.t) (b : Bird.t) (d : Z) :
  hits (Pipe.mk (Pipe.x p + d) (Pipe.height p) (Pipe.top_pos p)
                (Pipe.bottom_pos p) (Pipe.passed p))
       (Bird.mk (Bird.x b + d) (Bird.y b) (Bird.angle b) (Bird.speed b)
                (Bird.height b) (Bird.time b) (Bird.image_count b)
                (Bird.image b)) = hits p b /\
  hits (Pipe.move p) b =
    hits p (Bird.mk (Bird.x b + 5) (Bird.y b) (Bird.angle b) (Bird.speed b)
                    (Bird.height b) (Bird.time b) (Bird.image_count b)
                    (Bird.image b)).
Proof.
  unfold hits. rewrite !collide_eq.
  cbn [fst Pipe.x Pipe.top_pos Pipe.bottom_pos Pipe.move
       Bird.x Bird.y Bird.image].
  unfold Pipe.SPEED.
  replace (Pipe.x p + d - (Bird.x b + d)) with (Pipe.x p - Bird.x b) by ring.
  replace (Pipe.x p - 5 - Bird.x b) with (Pipe.x p - (Bird.x b + 5)) by ring.
  now split.
Qed.

(** ** One iteration of the loop: pipes, score, events *)

Lemma swept_eq `{Pygame} (bs : list Bird.t) (p : Pipe.t) :
  swept bs p =
    (Pipe.move (if passes bs p then Pipe.set_passed p else p),
     negb (on_screen (Pipe.move p))).
Proof.
  unfold swept, on_screen. rewrite negb_involutive.
  now destruct (passes bs p).
Qed.

Lemma remove_marked_swept `{Pygame} (bs : list Bird.t) (pipes : list Pipe.t) :
  Game.remove_marked (map (swept bs) pipes) =
    map (fun p => Pipe.move (if passes bs p then Pipe.set_passed p else p))
        (filter (fun p => on_screen (Pipe.move p)) pipes).
Proof.
  unfold Game.remove_marked.
  induction pipes as [|p pipes IH]; [reflexivity|].
  cbn [map filter]. rewrite swept_eq. cbn [snd]. rewrite negb_involutive.
  destruct (on_screen (Pipe.move p)); cbn [map fst]; now rewrite IH.
Qed.

Lemma tick_running `{Pygame} (events : list Game.event) (r : Z)
  (s s' : Game.t) :
  Game.tick events r s = Game.Running s' ->
  let bs := moved_birds events s in
  existsb is_quit events = false /\
  existsb (fun p => existsb (hits p) bs) (Game.pipes s) = false /\
  existsb (Game.out_of_bounds (Ground.move (Game.ground s))) bs = false /\
  Game.birds s' = map Bird.draw bs /\
  Game.ground s' = Ground.move (Game.ground s).
Proof.
  rewrite tick_eq. destruct (existsb is_quit events); [discriminate|].
  cbv zeta. rewrite update_pipes_eq.
  destruct (existsb (fun p => existsb (hits p) _) _); [discriminate|].
  destruct (existsb (passes _) _);
    destruct (existsb (Game.out_of_bounds _) _); try discriminate;
    intro E; injection E as <-; now repeat split.
Qed.

Lemma pipes_after_tick `{Pygame} (events : list Game.event) (r : Z)
  (s s' : Game.t) :
  Game.tick events r s = Game.Running s' ->
  let bs := moved_birds events s in
  Game.pipes s' =
    map (fun p => Pipe.move (if passes bs p then Pipe.set_passed p else p))
        (filter (fun p => on_screen (Pipe.move p)) (Game.pipes s))
    ++ (if existsb (passes bs) (Game.pipes s)
        then [Pipe.init 600 r] else []).
Proof.
  intros Ht bs. destruct (tick_pipes events r s s' Ht) as [Hp _].
  rewrite Hp. fold bs. now rewrite remove_marked_swept.
Qed.

(** X10. After an iteration that leaves the loop running, the list of
    pipes is: the pipes of before that are not wholly off the left edge
    once moved, in the order they had, each moved by 5 and marked passed if
    a bird went beyond it; and last, if a pipe was passed in this
    iteration, the new pipe created at 600. *)
Theorem X10_pipes_after_tick `{Pygame} (events : list Game.event) (r : Z)
  (s s' : Game.t) :
  Game.tick events r s = Game.Running s' ->
  let bs := moved_birds events s in
  Game.pipes s' =
    map (fun p => Pipe.move (if passes bs p then Pipe.set_passed p else p))
        (filter (fun p => on_screen (Pipe.move p)) (Game.pipes s))
    ++ (if existsb (passes bs) (Game.pipes s)
        then [Pipe.init 600 r] else []).
Proof.
  exact (pipes_after_tick events r s s').
Qed.

Lemma X10_pipes_after_tick_witness :
  exists s' : Game.t,
    @Game.tick boxes [] 7 (@Game.start boxes 100) = Game.Running s' /\
    Game.pipes s' = [Pipe.move (@Pipe.init boxes 700 100)].
Proof.
  eexists. split; [vm_compute; reflexivity|].
  rewrite (@X10_pipes_after_tick boxes [] 7 (@Game.start boxes 100));
    [reflexivity|vm_compute; reflexivity].
Defined.

(** X11. The score never goes down and goes up by at most 1 in an
    iteration; the score shown when the game is over is the score of
    before or one more. *)
Theorem X11_score_step `{Pygame} (events : list Game.event) (r : Z)
  (s : Game.t) :
  match Game.tick events r s with
  | Game.Running s' => Game.score s <= Game.score s' <= Game.score s + 1
  | Game.Ended sc => Game.score s <= sc <= Game.score s + 1
  | Game.Quit => True
  end.
Proof.
  rewrite tick_eq. destruct (existsb is_quit events); [exact I|].
  cbv zeta. rewrite update_pipes_eq.
  destruct (existsb (fun p => existsb (hits p) _) _); [lia|].
  destruct (existsb (passes _) _);
    destruct (existsb (Game.out_of_bounds _) _); cbn [Game.score]; lia.
Qed.

Lemma passes_passed (bs : list Bird.t) (p : Pipe.t) :
  Pipe.passed p = true -> passes bs p = false.
Proof.
  intro Hp. unfold passes. now rewrite Hp.
Qed.

Lemma existsb_passes_passed (bs : list Bird.t) (pipes : list Pipe.t) :
  Forall (fun p => Pipe.passed p = true) pipes ->
  existsb (passes bs) pipes = false.
Proof.
  induction 1 as [|p pipes Hp _ IH]; [reflexivity|].
  cbn. now rewrite (passes_passed bs p Hp), IH.
Qed.

(** X12. The passed mark is kept and a passed pipe does not score again:
    a passed pipe that stays is in the new list just moved, and when every
    pipe of the list is already passed, an iteration leaves the score as
    it is, creates no pipe and leaves every pipe passed. *)
Theorem X12_passed_sticky `{Pygame} (events : list Game.event) (r : Z)
  (s s' : Game.t) :
  Game.tick events r s = Game.Running s' ->
  (forall p, In p (Game.pipes s) -> Pipe.passed p = true ->
             on_screen (Pipe.move p) = true ->
             In (Pipe.move p) (Game.pipes s')) /\
  (Forall (fun p => Pipe.passed p = true) (Game.pipes s) ->
   Game.score s' = Game.score s /\
   Forall (fun p => Pipe.passed p = true) (Game.pipes s') /\
   (length (Game.pipes s') <= length (Game.pipes s))%nat).
Proof.
  intro Ht. pose proof (pipes_after_tick events r s s' Ht) as Hp.
  cbv zeta in Hp. destruct (tick_pipes events r s s' Ht) as [_ Hs].
  cbv zeta in Hs. split.
  - intros p Hin Hpass Hon. rewrite Hp. apply in_or_app. left.
    apply in_map_iff. exists p. split.
    + now rewrite (passes_passed _ p Hpass).
    + apply filter_In. now split.
  - intro Hall.
    rewrite (existsb_passes_passed _ _ Hall) in Hp, Hs.
    rewrite app_nil_r in Hp. split; [lia|]. split.
    + rewrite Hp. apply Forall_forall. intros q Hq.
      apply in_map_iff in Hq. destruct Hq as (p & <- & Hin).
      apply filter_In in Hin. destruct Hin as [Hin _].
      rewrite Forall_forall in Hall.
      rewrite (passes_passed _ p (Hall p Hin)). cbn. now apply Hall.
    + rewrite Hp, length_map. apply filter_length_le.
Qed.

Lemma X12_passed_sticky_witness :
  exists s' : Game.t,
    @Game.tick boxes [] 7 session_one_passed = Game.Running s' /\
    In (Pipe.move (Pipe.mk 100 260 (-380) 460 true)) (Game.pipes s') /\
    Game.score s' = 3 /\
    Forall (fun p => Pipe.passed p = true) (Game.pipes s') /\
    (length (Game.pipes s') <= 1)%nat.
Proof.
  eexists. split; [vm_compute; reflexivity|].
  destruct (@X12_passed_sticky boxes [] 7 session_one_passed _ eq_refl)
    as [Hkeep Hall].
  split.
  - apply Hkeep; [now left|reflexivity|reflexivity].
  - apply Hall. repeat constructor.
Defined.

Lemma existsb_filter {A} (f g : A -> bool) (l : list A) :
  (forall a, f a = true -> g a = true) ->
  existsb f (filter g l) = existsb f l.
Proof.
  intro Hfg. induction l as [|a l IH]; [reflexivity|].
  cbn. destruct (g a) eqn:Eg; cbn; rewrite IH; [reflexivity|].
  destruct (f a) eqn:Ef; [|reflexivity].
  apply Hfg in Ef. congruence.
Qed.

(** X13. Events that are neither a [QUIT] nor a press of the space bar
    are ignored: an iteration does the same with them as without them. *)
Theorem X13_other_events_ignored `{Pygame} (events : list Game.event)
  (r : Z) (s : Game.t) :
  Game.tick events r s =
    Game.tick (filter (fun e => is_quit e || is_space e) events) r s.
Proof.
  rewrite !tick_eq. unfold moved_birds.
  rewrite !existsb_filter; [reflexivity| |].
  - intros e He. now rewrite He, orb_true_r.
  - intros e He. now rewrite He.
Qed.

(** X14. An iteration leaves the process exactly when its events hold a
    [QUIT], wherever it stands among them and whatever else would have
    happened in the iteration. *)
Theorem X14_quit_iff `{Pygame} (events : list Game.event) (r : Z)
  (s : Game.t) :
  Game.tick events r s = Game.Quit <-> existsb is_quit events = true.
Proof.
  rewrite tick_eq. destruct (existsb is_quit events).
  - now split.
  - cbv zeta. split; [|discriminate].
    destruct (Game.update_pipes _ _ _ _) as [[[bs ps] sc]|]; [|discriminate].
    destruct (existsb _ bs); discriminate.
Qed.

(** ** Lists of positions 380 apart *)

Lemma spaced_tail (a : Z) (xs : list Z) : spaced (a :: xs) -> spaced xs.
Proof.
  destruct xs as [|b xs]; [trivial|]. now intros [_ H].
Qed.

Lemma spaced_ascending (a : Z) (xs : list Z) :
  spaced (a :: xs) -> Forall (fun b => a <= b) xs.
Proof.
  revert a. induction xs as [|b xs IH]; intros a Hs; [constructor|].
  destruct Hs as [Hb Hs]. constructor; [lia|].
  apply (Forall_impl _ (P := fun c => b <= c)); [intros c Hc; lia|].
  now apply IH.
Qed.

Lemma filter_all {A} (f : A -> bool) (l : list A) :
  Forall (fun a => f a = true) l -> filter f l = l.
Proof.
  induction 1 as [|a l Ha _ IH]; [reflexivity|].
  cbn. now rewrite Ha, IH.
Qed.

Lemma spaced_filter (c : Z) (xs : list Z) :
  spaced xs -> spaced (filter (fun a => c <=? a) xs).
Proof.
  induction xs as [|a xs IH]; intro Hs; [exact I|].
  cbn [filter]. destruct (Z.leb_spec c a) as [Hca|Hca].
  - rewrite filter_all; [exact Hs|].
    apply (Forall_impl _ (P := fun b => a <= b)).
    + intros b Hb. apply Z.leb_le. lia.
    + now apply spaced_ascending.
  - apply IH. now apply spaced_tail in Hs.
Qed.

Lemma spaced_shift (d : Z) (xs : list Z) :
  spaced xs -> spaced (map (fun a => a - d) xs).
Proof.
  induction xs as [|a xs IH]; intro Hs; [exact I|].
  destruct xs as [|b xs]; [exact I|].
  destruct Hs as [Hb Hs]. cbn [map spaced] in *.
  split; [lia|]. now apply IH.
Qed.

Lemma spaced_snoc (xs : list Z) (a : Z) :
  spaced (xs ++ [a]) -> spaced (xs ++ [a; a + 380]).
Proof.
  induction xs as [|b xs IH]; intro Hs.
  - cbn. now split.
  - destruct xs as [|c xs].
    + cbn in *. destruct Hs as [Hs _]. now repeat split.
    + cbn [app spaced] in *. destruct Hs as [Hc Hs].
      split; [exact Hc|]. now apply IH.
Qed.

(** First and last of such a list are 380 times the number of steps
    apart. *)
Lemma spaced_span (xs : list Z) (a l : Z) :
  spaced (a :: xs ++ [l]) -> l = a + 380 * Z.of_nat (S (length xs)).
Proof.
  revert a. induction xs as [|b xs IH]; intros a Hs.
  - destruct Hs as [Hs _]. cbn [length]. lia.
  - change (spaced (a :: b :: xs ++ [l])) in Hs. destruct Hs as [Hb Hs].
    specialize (IH b Hs). cbn [length]. lia.
Qed.

(** ** The session: what every iteration keeps *)

Lemma do_methods_app (ms ms' : list method) (b : Bird.t) :
  do_methods (ms ++ ms') b = do_methods ms' (do_methods ms b).
Proof.
  unfold do_methods. apply fold_left_app.
Qed.

Lemma init_gap_ok `{Pygame} (x0 r : Z) : gap_ok (Pipe.init x0 r).
Proof.
  unfold gap_ok, Pipe.init, Pipe.set_height.
  cbn [Pipe.height Pipe.top_pos Pipe.bottom_pos].
  split; [apply randrange_bounds; lia|]. now split.
Qed.

Lemma passes_single (b : Bird.t) (p : Pipe.t) :
  passes [b] p = negb (Pipe.passed p) && (Bird.x b >? Pipe.x p).
Proof.
  unfold passes. cbn. now rewrite orb_false_r.
Qed.

Lemma marked_moved_x (c : bool) (p : Pipe.t) :
  Pipe.x (Pipe.move (if c then Pipe.set_passed p else p)) = Pipe.x p - 5.
Proof.
  now destruct c.
Qed.

Lemma marked_moved_gap `{Pygame} (c : bool) (p : Pipe.t) :
  gap_ok p -> gap_ok (Pipe.move (if c then Pipe.set_passed p else p)).
Proof.
  unfold gap_ok. now destruct c.
Qed.

Lemma marked_moved_on_screen `{Pygame} (c : bool) (p : Pipe.t) :
  on_screen (Pipe.move (if c then Pipe.set_passed p else p)) =
    on_screen (Pipe.move p).
Proof.
  unfold on_screen. now rewrite marked_moved_x.
Qed.

Lemma kept_positions `{Pygame} (f : Pipe.t -> bool) (l : list Pipe.t) :
  map Pipe.x
      (map (fun p => Pipe.move (if f p then Pipe.set_passed p else p))
           (filter (fun p => on_screen (Pipe.move p)) l)) =
    map (fun a => a - 5)
        (filter (fun a => 5 - get_width Pipe.PIPE_TOP <=? a) (map Pipe.x l)).
Proof.
  induction l as [|p l IH]; [reflexivity|].
  cbn [map filter].
  assert (E : on_screen (Pipe.move p)
              = (5 - get_width Pipe.PIPE_TOP <=? Pipe.x p)).
  { unfold on_screen. cbn [Pipe.move Pipe.x]. unfold Pipe.SPEED.
    destruct (Z.ltb_spec (Pipe.x p - 5 + get_width Pipe.PIPE_TOP) 0);
      destruct (Z.leb_spec (5 - get_width Pipe.PIPE_TOP) (Pipe.x p));
      cbn; lia || reflexivity. }
  rewrite E. destruct (5 - get_width Pipe.PIPE_TOP <=? Pipe.x p);
    cbn [map]; rewrite IH; [|reflexivity].
  now rewrite marked_moved_x.
Qed.

Section Session.

Context `{Pygame}.
Hypothesis pipe_width : 0 <= get_width Pipe.PIPE_TOP.

Lemma init_on_screen (x0 r : Z) : 0 <= x0 -> on_screen (Pipe.init x0 r) = true.
Proof.
  intro Hx. unfold on_screen, Pipe.init, Pipe.set_height. cbn [Pipe.x].
  apply negb_true_iff. apply Z.ltb_ge. lia.
Qed.

Lemma start_ok (r0 : Z) : session_ok (Game.start r0).
Proof.
  unfold session_ok, Game.start.
  cbn [Game.birds Game.ground Game.pipes Game.score].
  split; [now exists []|]. split; [reflexivity|]. split; [lia|].
  split; [constructor; [apply init_gap_ok|constructor]|].
  split; [constructor; [apply init_on_screen; lia|constructor]|].
  split; [exact I|].
  exists [], (Pipe.init 700 r0). split; [reflexivity|].
  split; [constructor|]. split; [reflexivity|].
  cbn [Pipe.init Pipe.set_height Pipe.x]. split; [lia|reflexivity].
Qed.

Lemma pipes_step (b : Bird.t) (r : Z) (front : list Pipe.t) (last : Pipe.t) :
  Bird.x b = 230 ->
  Forall (fun p => Pipe.passed p = true) front ->
  Pipe.passed last = false ->
  225 <= Pipe.x last <= 700 ->
  Pipe.x last mod 5 = 0 ->
  Forall gap_ok (front ++ [last]) ->
  spaced (map Pipe.x (front ++ [last])) ->
  let pipes' :=
    map (fun p => Pipe.move (if passes [b] p then Pipe.set_passed p else p))
        (filter (fun p => on_screen (Pipe.move p)) (front ++ [last]))
    ++ (if existsb (passes [b]) (front ++ [last])
        then [Pipe.init 600 r] else []) in
  Forall gap_ok pipes' /\
  Forall (fun p => on_screen p = true) pipes' /\
  spaced (map Pipe.x pipes') /\
  exists front' last',
    pipes' = front' ++ [last'] /\
    Forall (fun p => Pipe.passed p = true) front' /\
    Pipe.passed last' = false /\
    225 <= Pipe.x last' <= 700 /\
    Pipe.x last' mod 5 = 0.
Proof.
  intros Hb Hfront Hlast Hrange Hmod Hgap Hsp.
  set (mv := fun p => Pipe.move (if passes [b] p then Pipe.set_passed p else p)).
  set (on := fun p => on_screen (Pipe.move p)).
  assert (Eex : existsb (passes [b]) (front ++ [last]) = (230 >? Pipe.x last)).
  { rewrite existsb_app, (existsb_passes_passed _ _ Hfront). cbn.
    now rewrite orb_false_r, passes_single, Hlast, Hb. }
  assert (Eon : on last = true).
  { unfold on, on_screen. cbn [Pipe.move Pipe.x]. unfold Pipe.SPEED.
    apply negb_true_iff. apply Z.ltb_ge. lia. }
  assert (Ekeep : map mv (filter on (front ++ [last]))
                  = map Pipe.move (filter on front) ++ [mv last]).
  { rewrite filter_app, map_app. cbn [filter]. rewrite Eon. cbn [map].
    f_equal. apply map_ext_in. intros p Hp. apply filter_In in Hp.
    destruct Hp as [Hp _]. rewrite Forall_forall in Hfront.
    unfold mv. now rewrite (passes_passed _ p (Hfront p Hp)). }
  assert (Hfront' : Forall (fun p => Pipe.passed p = true)
                           (map Pipe.move (filter on front))).
  { apply Forall_forall. intros q Hq. apply in_map_iff in Hq.
    destruct Hq as (p & <- & Hp). apply filter_In in Hp.
    rewrite Forall_forall in Hfront. cbn [Pipe.move Pipe.passed].
    apply Hfront. apply Hp. }
  assert (Hkgap : Forall gap_ok (map mv (filter on (front ++ [last])))).
  { apply Forall_forall. intros q Hq. apply in_map_iff in Hq.
    destruct Hq as (p & <- & Hp). apply filter_In in Hp.
    rewrite Forall_forall in Hgap. apply marked_moved_gap.
    apply Hgap. apply Hp. }
  assert (Hkon : Forall (fun p => on_screen p = true)
                        (map mv (filter on (front ++ [last])))).
  { apply Forall_forall. intros q Hq. apply in_map_iff in Hq.
    destruct Hq as (p & <- & Hp). apply filter_In in Hp.
    unfold mv. rewrite marked_moved_on_screen. apply Hp. }
  assert (Hksp : spaced (map Pipe.x (map mv (filter on (front ++ [last]))))).
  { unfold mv, on. rewrite kept_positions.
    now apply spaced_shift, spaced_filter. }
  intro pipes'. subst pipes'. fold mv on. rewrite Eex.
  destruct (230 >? Pipe.x last) eqn:Epass.
  - apply Z.gtb_lt in Epass.
    assert (Hx : Pipe.x last = 225).
    { apply Z.mod_divide in Hmod; [|lia]. destruct Hmod as [k Hk]. lia. }
    assert (Emv : mv last = Pipe.move (Pipe.set_passed last)).
    { unfold mv. rewrite passes_single, Hlast, Hb.
      replace (230 >? Pipe.x last) with true; [reflexivity|].
      symmetry. apply Z.gtb_lt. lia. }
    split; [|split; [|split]].
    + apply Forall_app. split; [exact Hkgap|].
      constructor; [apply init_gap_ok|constructor].
    + apply Forall_app. split; [exact Hkon|].
      constructor; [apply init_on_screen; lia|constructor].
    + rewrite Ekeep in Hksp |- *. rewrite <- app_assoc.
      rewrite map_app in Hksp |- *. cbn [map app] in Hksp |- *.
      assert (E220 : Pipe.x (mv last) = 220).
      { rewrite Emv. cbn. unfold Pipe.SPEED. lia. }
      rewrite E220 in Hksp |- *.
      change (Pipe.x (Pipe.init 600 r)) with (220 + 380).
      now apply spaced_snoc.
    + exists (map Pipe.move (filter on front) ++ [mv last]), (Pipe.init 600 r).
      split; [now rewrite Ekeep|]. split.
      * apply Forall_app. split; [exact Hfront'|].
        constructor; [now rewrite Emv|constructor].
      * split; [reflexivity|].
        cbn [Pipe.init Pipe.set_height Pipe.x]. split; [lia|reflexivity].
  - rewrite Z.gtb_ltb in Epass. apply Z.ltb_ge in Epass.
    assert (Emv : mv last = Pipe.move last).
    { unfold mv. rewrite passes_single, Hlast, Hb.
      replace (230 >? Pipe.x last) with false; [reflexivity|].
      symmetry. rewrite Z.gtb_ltb. apply Z.ltb_ge. lia. }
    rewrite app_nil_r.
    split; [exact Hkgap|]. split; [exact Hkon|]. split; [exact Hksp|].
    exists (map Pipe.move (filter on front)), (Pipe.move last).
    split; [now rewrite Ekeep, Emv|]. split; [exact Hfront'|].
    split; [exact Hlast|].
    cbn [Pipe.move Pipe.x]. unfold Pipe.SPEED. split; [lia|].
    apply Z.mod_divide in Hmod; [|lia]. destruct Hmod as [k Hk].
    apply Z.mod_divide; [lia|]. exists (k - 1). lia.
Qed.

Lemma moved_birds_single (events : list Game.event) (s : Game.t)
  (ms : list method) :
  Game.birds s = [do_methods ms (Bird.init 230 350)] ->
  moved_birds events s =
    [do_methods (ms ++ (if existsb is_space events
                        then [MJump; MMove] else [MMove]))
                (Bird.init 230 350)].
Proof.
  intro Hb. unfold moved_birds. rewrite Hb, do_methods_app.
  now destruct (existsb is_space events).
Qed.

Lemma tick_ok (events : list Game.event) (r : Z) (s s' : Game.t) :
  session_ok s -> Game.tick events r s = Game.Running s' -> session_ok s'.
Proof.
  intros (Hbird & Hground & Hscore & Hgap & Hon & Hsp & Hpipes) Ht.
  destruct Hbird as [ms Hbird].
  destruct Hpipes as (front & last & Hfl & Hfront & Hlast & Hrange & Hmod).
  destruct (tick_running events r s s' Ht) as (_ & _ & _ & Hbirds' & Hground').
  pose proof (pipes_after_tick events r s s' Ht) as Hp'.
  destruct (tick_pipes events r s s' Ht) as [_ Hs'].
  cbv zeta in Hbirds', Hp', Hs'.
  rewrite (moved_birds_single events s ms Hbird) in Hbirds', Hp', Hs'.
  set (ms' := ms ++ (if existsb is_space events
                     then [MJump; MMove] else [MMove])) in *.
  set (b := do_methods ms' (Bird.init 230 350)) in *.
  assert (Hbx : Bird.x b = 230).
  { subst b.
    now destruct (do_methods_inv ms' (Bird.init 230 350) (init_inv 230 350)). }
  rewrite Hfl in Hgap, Hsp, Hp', Hs'.
  destruct (pipes_step b r front last Hbx Hfront Hlast Hrange Hmod Hgap Hsp)
    as (Hgap' & Hon' & Hsp' & Hpipes').
  rewrite <- Hp' in Hgap', Hon', Hsp', Hpipes'.
  unfold session_ok. split; [|split; [|split; [|split; [|split; [|split]]]]].
  - exists (ms' ++ [MDraw]). rewrite Hbirds'. cbn [map].
    now rewrite do_methods_app.
  - rewrite Hground'. exact Hground.
  - destruct (existsb _ _) in Hs'; lia.
  - exact Hgap'.
  - exact Hon'.
  - exact Hsp'.
  - exact Hpipes'.
Qed.

Lemma main_loop_ok (inputs : list (list Game.event * Z)) :
  forall s s' : Game.t,
    session_ok s -> main_loop inputs s = Game.Running s' -> session_ok s'.
Proof.
  induction inputs as [|[events r] inputs IH]; intros s s' Hs Hl.
  - cbn in Hl. now injection Hl as <-.
  - cbn [main_loop] in Hl.
    destruct (Game.tick events r s) as [s1| |] eqn:Ht; try discriminate.
    apply (IH s1 s'); [|exact Hl]. now apply (tick_ok events r s).
Qed.

Lemma at_most_one_unpassed (bs : list Bird.t) (front : list Pipe.t)
  (last : Pipe.t) :
  Forall (fun p => Pipe.passed p = true) front ->
  (length (filter (passes bs) (front ++ [last])) <= 1)%nat.
Proof.
  intro Hfront. rewrite filter_app, length_app.
  assert (E : filter (passes bs) front = []).
  { induction Hfront as [|p front Hp _ IH]; [reflexivity|].
    cbn. now rewrite (passes_passed bs p Hp). }
  rewrite E. cbn. destruct (passes bs last); cbn; lia.
Qed.

(** X15. In a game, from its start and after any number of iterations
    that leave the loop running, there is one bird, its [x] is still 230,
    its angle is between -95 and 25 and its frame is one of the three
    images; the ground is still at 730 and the score is not negative. *)
Theorem X15_session_bird (inputs : list (list Game.event * Z)) (r0 : Z)
  (s : Game.t) :
  main_loop inputs (Game.start r0) = Game.Running s ->
  (exists b, Game.birds s = [b] /\ Bird.x b = 230 /\
             -95 <= Bird.angle b <= 25 /\ (Bird.image b <= 2)%nat) /\
  Ground.y (Game.ground s) = 730 /\
  0 <= Game.score s.
Proof.
  intro Hl.
  destruct (main_loop_ok inputs _ s (start_ok r0) Hl)
    as ([ms Hbird] & Hground & Hscore & _).
  split; [|now split].
  exists (do_methods ms (Bird.init 230 350)). split; [exact Hbird|].
  destruct (do_methods_inv ms (Bird.init 230 350) (init_inv 230 350))
    as (Hx & Ha & _ & Hi).
  split; [exact Hx|]. split; [now apply angle_range|exact Hi].
Qed.

(** X16. In a game the list of pipes is never empty: its last pipe is
    not passed yet and every pipe before it is.  So whatever the birds,
    at most one pipe can be passed in an iteration of a game. *)
Theorem X16_session_one_unpassed (inputs : list (list Game.event * Z))
  (r0 : Z) (s : Game.t) :
  main_loop inputs (Game.start r0) = Game.Running s ->
  (exists front last,
      Game.pipes s = front ++ [last] /\
      Forall (fun p => Pipe.passed p = true) front /\
      Pipe.passed last = false) /\
  (forall bs, (length (filter (passes bs) (Game.pipes s)) <= 1)%nat).
Proof.
  intro Hl.
  destruct (main_loop_ok inputs _ s (start_ok r0) Hl)
    as (_ & _ & _ & _ & _ & _ & front & last & Hfl & Hfront & Hlast & _).
  split.
  - exists front, last. now repeat split.
  - intro bs. rewrite Hfl. now apply at_most_one_unpassed.
Qed.

(** X17. In a game the pipes stand from left to right in the list, each
    380 after the one before, and the last one, the one to pass next, is
    between 225 and 700. *)
Theorem X17_session_spacing (inputs : list (list Game.event * Z)) (r0 : Z)
  (s : Game.t) :
  main_loop inputs (Game.start r0) = Game.Running s ->
  spaced (map Pipe.x (Game.pipes s)) /\
  exists front last,
    Game.pipes s = front ++ [last] /\ 225 <= Pipe.x last <= 700.
Proof.
  intro Hl.
  destruct (main_loop_ok inputs _ s (start_ok r0) Hl)
    as (_ & _ & _ & _ & _ & Hsp & front & last & Hfl & _ & _ & Hrange & _).
  split; [exact Hsp|]. now exists front, last.
Qed.

(** X18. In a game the list of pipes stays short: with [n] pipes in the
    list, [380 (n - 1)] is at most 700 plus the width of a pipe, because
    the pipes that have left the screen have left the list. *)
Theorem X18_session_pipe_count (inputs : list (list Game.event * Z))
  (r0 : Z) (s : Game.t) :
  main_loop inputs (Game.start r0) = Game.Running s ->
  (1 <= length (Game.pipes s))%nat /\
  380 * (Z.of_nat (length (Game.pipes s)) - 1)
  <= 700 + get_width Pipe.PIPE_TOP.
Proof.
  intro Hl.
  destruct (main_loop_ok inputs _ s (start_ok r0) Hl)
    as (_ & _ & _ & _ & Hon & Hsp & front & last & Hfl & _ & _ & Hrange & _).
  rewrite Hfl in *. rewrite length_app. cbn [length]. split; [lia|].
  destruct front as [|p front];
    [change (Z.of_nat (length (@nil Pipe.t) + 1)) with 1; lia|].
  rewrite map_app in Hsp. cbn [map app] in Hsp.
  apply spaced_span in Hsp. rewrite length_map in Hsp.
  apply Forall_inv in Hon. unfold on_screen in Hon.
  apply negb_true_iff in Hon. apply Z.ltb_ge in Hon.
  cbn [length]. lia.
Qed.

(** X19. In a game every pipe of the list has its gap as the constructor
    made it: height in [50, 475), top edge at the height less the height
    of the top image, bottom edge 200 below the height; and no pipe of the
    list is wholly off the left edge of the screen. *)
Theorem X19_session_pipes_ok (inputs : list (list Game.event * Z)) (r0 : Z)
  (s : Game.t) :
  main_loop inputs (Game.start r0) = Game.Running s ->
  Forall gap_ok (Game.pipes s) /\
  Forall (fun p => 0 <= Pipe.x p + get_width Pipe.PIPE_TOP) (Game.pipes s).
Proof.
  intro Hl.
  destruct (main_loop_ok inputs _ s (start_ok r0) Hl)
    as (_ & _ & _ & Hgap & Hon & _).
  split; [exact Hgap|].
  apply (Forall_impl _ (P := fun p => on_screen p = true)); [|exact Hon].
  intros p Hp. unfold on_screen in Hp.
  apply negb_true_iff in Hp. now apply Z.ltb_ge in Hp.
Qed.

End Session.

Lemma boxes_pipe_width : 0 <= @get_width boxes (@Pipe.PIPE_TOP boxes).
Proof.
  vm_compute. discriminate.
Qed.

Lemma X15_session_bird_witness :
  exists s : Game.t,
    @main_loop boxes (example_play 100) (@Game.start boxes 160)
    = Game.Running s /\
    (exists b, Game.birds s = [b] /\ Bird.x b = 230 /\
               -95 <= Bird.angle b <= 25 /\ (Bird.image b <= 2)%nat) /\
    Ground.y (Game.ground s) = 730 /\
    0 <= Game.score s.
Proof.
  eexists. split; [vm_compute; reflexivity|].
  apply (@X15_session_bird boxes boxes_pipe_width (example_play 100) 160).
  vm_compute. reflexivity.
Defined.

Lemma X16_session_one_unpassed_witness :
  exists s : Game.t,
    @main_loop boxes (example_play 100) (@Game.start boxes 160)
    = Game.Running s /\
    (exists front last,
        Game.pipes s = front ++ [last] /\
        Forall (fun p => Pipe.passed p = true) front /\
        Pipe.passed last = false) /\
    (forall bs, (length (filter (passes bs) (Game.pipes s)) <= 1)%nat).
Proof.
  eexists. split; [vm_compute; reflexivity|].
  apply (@X16_session_one_unpassed boxes boxes_pipe_width
           (example_play 100) 160).
  vm_compute. reflexivity.
Defined.

Lemma X17_session_spacing_witness :
  exists s : Game.t,
    @main_loop boxes (example_play 100) (@Game.start boxes 160)
    = Game.Running s /\
    map Pipe.x (Game.pipes s) = [200; 580] /\
    spaced (map Pipe.x (Game.pipes s)) /\
    exists front last,
      Game.pipes s = front ++ [last] /\ 225 <= Pipe.x last <= 700.
Proof.
  eexists. split; [vm_compute; reflexivity|]. split; [reflexivity|].
  apply (@X17_session_spacing boxes boxes_pipe_width (example_play 100) 160).
  vm_compute. reflexivity.
Defined.

Lemma X18_session_pipe_count_witness :
  exists s : Game.t,
    @main_loop boxes (example_play 100) (@Game.start boxes 160)
    = Game.Running s /\
    (1 <= length (Game.pipes s))%nat /\
    380 * (Z.of_nat (length (Game.pipes s)) - 1)
    <= 700 + @get_width boxes (@Pipe.PIPE_TOP boxes).
Proof.
  eexists. split; [vm_compute; reflexivity|].
  apply (@X18_session_pipe_count boxes boxes_pipe_width
           (example_play 100) 160).
  vm_compute. reflexivity.
Defined.

Lemma X19_session_pipes_ok_witness :
  exists s : Game.t,
    @main_loop boxes (example_play 100) (@Game.start boxes 160)
    = Game.Running s /\
    Forall (@gap_ok boxes) (Game.pipes s) /\
    Forall (fun p => 0 <= Pipe.x p + @get_width boxes (@Pipe.PIPE_TOP boxes))
           (Game.pipes s).
Proof.
  eexists. split; [vm_compute; reflexivity|].
  apply (@X19_session_pipes_ok boxes boxes_pipe_width (example_play 100) 160).
  vm_compute. reflexivity.
Defined.

(** ** The session: games end *)

Lemma fall_y_step (k : Z) :
  0 <= k ->
  (fall_y (k + 1)
   == fall_y k + Bird.restrict (Bird.raw_displacement (k + 1) 0))%Q.
Proof.
  intro Hk. destruct fall_first_moves as (D1 & D2 & D3).
  destruct (Z.eq_dec k 0) as [->|H0]; [now rewrite D1|].
  destruct (Z.eq_dec k 1) as [->|H1]; [now rewrite D2|].
  destruct (Z.eq_dec k 2) as [->|H2]; [now rewrite D3|].
  rewrite fall_terminal by lia. unfold fall_y.
  repeat match goal with
         | |- context [?a <=? ?c] => destruct (Z.leb_spec a c); [lia|]
         | |- context [?a =? ?c] => destruct (Z.eqb_spec a c); [lia|]
         end.
  replace (k + 1 - 3) with (k - 3 + 1) by ring.
  rewrite inject_Z_plus. change (inject_Z 1) with 1%Q. ring.
Qed.

Lemma fall_y_late (k : Z) : 26 <= k -> (730 < fall_y k)%Q.
Proof.
  intro Hk. unfold fall_y.
  repeat match goal with
         | |- context [?a <=? ?c] => destruct (Z.leb_spec a c); [lia|]
         | |- context [?a =? ?c] => destruct (Z.eqb_spec a c); [lia|]
         end.
  assert (H23 : (inject_Z 23 <= inject_Z (k - 3))%Q)
    by (rewrite <- Zle_Qle; lia).
  change (inject_Z 23) with 23%Q in H23. lra.
Qed.

Section Endings.

Context `{Pygame}.

Lemma existsb_single {A} (f : A -> bool) (a : A) : existsb f [a] = f a.
Proof.
  cbn. apply orb_false_r.
Qed.

Lemma falling_tick (events : list Game.event) (r k : Z) (s s' : Game.t) :
  (forall i, 0 <= get_height (Bird.IMGS i)) ->
  0 <= k ->
  falling k s ->
  existsb is_space events = false ->
  Game.tick events r s = Game.Running s' ->
  falling (k + 1) s' /\ (fall_y (k + 1) <= 730)%Q.
Proof.
  intros Hh Hk (Hg & b & Hb & Ht & Hs & Hy) Hsp Hrun.
  destruct (tick_running events r s s' Hrun) as (_ & _ & Hout & Hb' & Hg').
  cbv zeta in Hout, Hb'. unfold moved_birds in Hout, Hb'.
  rewrite Hsp, Hb in Hout, Hb'. cbn [map] in Hout, Hb'.
  assert (Hy' : (Bird.y (Bird.move b) == fall_y (k + 1))%Q).
  { rewrite move_y, fall_y_step, Hy by exact Hk.
    now rewrite (next_displacement_eq b (k + 1) 0) by (lia || exact Hs). }
  rewrite existsb_single in Hout. unfold Game.out_of_bounds in Hout.
  apply orb_false_iff in Hout. destruct Hout as [Hout _].
  apply Qltb_ge in Hout. cbn [Ground.move Ground.y] in Hout.
  rewrite Hg, Hy' in Hout.
  pose proof (Hh (Bird.image (Bird.move b))) as Himg.
  rewrite Zle_Qle in Himg. change (inject_Z 0) with 0%Q in Himg.
  change (inject_Z 730) with 730%Q in Hout.
  split; [|lra].
  split; [rewrite Hg'; exact Hg|].
  exists (Bird.draw (Bird.move b)). split; [exact Hb'|].
  destruct (draw_keeps (Bird.move b)) as (_ & Ey & _ & Es & _ & Et).
  rewrite Ey, Es, Et. cbn [Bird.move Bird.time Bird.speed].
  split; [lia|]. split; [exact Hs|exact Hy'].
Qed.

Lemma falling_loop (inputs : list (list Game.event * Z)) :
  (forall i, 0 <= get_height (Bird.IMGS i)) ->
  Forall (fun i => existsb is_space (fst i) = false) inputs ->
  forall (k : Z) (s s' : Game.t),
    0 <= k ->
    (fall_y k <= 730)%Q ->
    falling k s ->
    main_loop inputs s = Game.Running s' ->
    (fall_y (k + Z.of_nat (length inputs)) <= 730)%Q.
Proof.
  intros Hh Hin. induction Hin as [|[events r] inputs Hsp _ IH];
    intros k s s' Hk Hle Hf Hl.
  - cbn [length Z.of_nat]. now rewrite Z.add_0_r.
  - cbn [main_loop] in Hl. cbn [fst] in Hsp.
    destruct (Game.tick events r s) as [s1| |] eqn:Ht; try discriminate.
    destruct (falling_tick events r k s s1 Hh Hk Hf Hsp Ht) as [Hf1 Hle1].
    replace (k + Z.of_nat (length ((events, r) :: inputs)))
      with (k + 1 + Z.of_nat (length inputs))
      by (cbn [length]; lia).
    apply (IH (k + 1) s1 s'); [lia|exact Hle1|exact Hf1|exact Hl].
Qed.

(** X20. Without a jump the game ends: if the bird images have a height
    that is not negative and the space bar is pressed in none of the
    iterations, the loop started by [main] is no longer running after 26
    iterations, whatever the pipes and the draws. *)
Theorem X20_gravity_ends_game (inputs : list (list Game.event * Z))
  (r0 : Z) :
  (forall i, 0 <= get_height (Bird.IMGS i)) ->
  Forall (fun i => existsb is_space (fst i) = false) inputs ->
  (26 <= length inputs)%nat ->
  forall s : Game.t, main_loop inputs (Game.start r0) <> Game.Running s.
Proof.
  intros Hh Hin Hlen s Hl.
  assert (Hf : falling 0 (Game.start r0)).
  { split; [reflexivity|]. exists (Bird.init 230 350).
    repeat split; reflexivity. }
  assert (H0 : (fall_y 0 <= 730)%Q)
    by (change (fall_y 0) with 350%Q; lra).
  pose proof (falling_loop inputs Hh Hin 0 _ s (Z.le_refl 0) H0 Hf Hl) as Hle.
  pose proof (fall_y_late (0 + Z.of_nat (length inputs))) as Hlate.
  assert (H26 : 26 <= 0 + Z.of_nat (length inputs)) by lia.
  specialize (Hlate H26). lra.
Qed.




End Endings.

Lemma X20_gravity_ends_game_witness :
  (26 <= length (repeat (@nil Game.event, 0) 26))%nat /\
  forall s : Game.t,
    @main_loop boxes (repeat ([], 0) 26) (@Game.start boxes 0)
    <> Game.Running s.
Proof.
  split; [cbn; lia|].
  apply (@X20_gravity_ends_game boxes (repeat ([], 0) 26) 0).
  - intro i. destruct i as [|[|i]]; vm_compute; discriminate.
  - repeat constructor.
  - cbn. lia.
Defined.


(** ** The texts *)

(** X22. The game-over message is centred on the screen to the pixel:
    whatever the size of the rendered text, the margin on its left is the
    margin on its right or one more, and likewise above and below.  The
    score text ends 10 before the right edge of the screen. *)
Theorem X22_text_layout (w h : Z) :
  (let '(x, y) := game_over_text_pos w h in
   0 <= x - (SCREEN_WIDTH - (x + w)) <= 1 /\
   0 <= y - (SCREEN_HEIGHT - (y + h)) <= 1) /\
  fst (score_text_pos w) + w = SCREEN_WIDTH - 10.
Proof.
  unfold game_over_text_pos, score_text_pos, SCREEN_WIDTH, SCREEN_HEIGHT.
  cbn [fst]. change (500 / 2) with 250. change (800 / 2) with 400.
  pose proof (Z.div_mod w 2). pose proof (Z.mod_pos_bound w 2).
  pose proof (Z.div_mod h 2). pose proof (Z.mod_pos_bound h 2).
  lia.
Qed.
